(** * vangogh-ai-agent: the X platform bot and its OAuth helper

    A shallow embedding of [src/platforms/x/index.ts] (the mention loop with
    its cursor file, the commit announcements and the text cleaning) and of
    [src/platforms/x/auth.ts] (the two routes of the OAuth 1.0a helper),
    followed by the properties of the specification that were checked
    against them.

    Conventions.
    - A JavaScript string is the list of its UTF-16 code units ([jsstring]).
      Literals are written [js "..."].
    - The services the program talks to (the X API client, the completion
      client, the GitHub feed, the file system, the browser launcher) are
      not part of the repository.  They are records of response functions;
      every call is also recorded in a trace, in program order.
    - [async] code runs sequentially; a [try]/[catch] is a match on the
      response of the call it guards. *)

From Stdlib Require Import List NArith Bool Ascii String Lia Sorted.
Import ListNotations.

Local Open Scope N_scope.
Local Open Scope list_scope.

(** ** JavaScript strings *)

(** The elements of a string are code units, numbers below 65536;
    [well_formed], below, says so where a property depends on it. *)
Definition jsstring : Type := list N.

Definition js (s : string) : jsstring :=
  map N_of_ascii (list_ascii_of_string s).

Fixpoint jsstring_eqb (a b : jsstring) : bool :=
  match a, b with
  | [], [] => true
  | x :: a', y :: b' => (x =? y) && jsstring_eqb a' b'
  | _, _ => false
  end.

(** [xs.join(sep)] *)
Fixpoint join (sep : jsstring) (xs : list jsstring) : jsstring :=
  match xs with
  | [] => []
  | [x] => x
  | x :: rest => x ++ sep ++ join sep rest
  end.

(** The class [\w] of a regular expression without flags: [A-Za-z0-9_]. *)
Definition is_word (c : N) : bool :=
  ((65 <=? c) && (c <=? 90)) || ((97 <=? c) && (c <=? 122))
  || ((48 <=? c) && (c <=? 57)) || (c =? 95).

(** What [String.prototype.trim] removes: the WhiteSpace and LineTerminator
    code units of ECMAScript. *)
Definition is_space (c : N) : bool :=
  ((9 <=? c) && (c <=? 13)) || (c =? 32) || (c =? 160) || (c =? 5760)
  || ((8192 <=? c) && (c <=? 8202)) || (c =? 8232) || (c =? 8233)
  || (c =? 8239) || (c =? 8287) || (c =? 12288) || (c =? 65279).

Fixpoint trimStart (s : jsstring) : jsstring :=
  match s with
  | c :: r => if is_space c then trimStart r else s
  | [] => []
  end.

Definition trimEnd (s : jsstring) : jsstring := rev (trimStart (rev s)).

Definition trim (s : jsstring) : jsstring := trimEnd (trimStart s).

(** Surrogates.  A high surrogate followed by a low one stands for one
    character; any other surrogate is unpaired. *)
Definition is_high (c : N) : bool := (55296 <=? c) && (c <=? 56319).
Definition is_low (c : N) : bool := (56320 <=? c) && (c <=? 57343).

(** What a string reads back as after it was written as UTF-8 and decoded
    again: the encoder has no bytes for an unpaired surrogate and writes
    U+FFFD in its place; everything else comes back as it was. *)
Fixpoint utf8_text (s : jsstring) : jsstring :=
  match s with
  | [] => []
  | c :: r =>
      if is_high c then
        match r with
        | d :: r' =>
            if is_low d then c :: d :: utf8_text r'
            else 65533 :: utf8_text r
        | [] => [65533]
        end
      else if is_low c then 65533 :: utf8_text r
      else c :: utf8_text r
  end.

(** A well-formed string: every element is a code unit and every
    surrogate is paired. *)
Fixpoint well_formed (s : jsstring) : bool :=
  match s with
  | [] => true
  | c :: r =>
      (c <? 65536)
      && if is_high c then
           match r with
           | d :: r' => is_low d && well_formed r'
           | [] => false
           end
         else negb (is_low c) && well_formed r
  end.

(** ** [cleanTweetText]

    [text.replace(/^(@\w+ ?)+/, '').trim()].  The pattern is anchored at the
    start of the text and every quantifier in it is greedy. *)

(** [\w+]: the rest after the longest run of word characters. *)
Fixpoint skip_word (s : jsstring) : jsstring :=
  match s with
  | c :: r => if is_word c then skip_word r else s
  | [] => []
  end.

(** [ ?]: one optional space. *)
Definition skip_space (s : jsstring) : jsstring :=
  match s with
  | 32 :: r => r
  | _ => s
  end.

(** One round of the group [(@\w+ ?)]: the rest of the text after it, or
    [None] when the group does not match here. *)
Definition mention_group (s : jsstring) : option jsstring :=
  match s with
  | 64 :: c :: r => if is_word c then Some (skip_space (skip_word r)) else None
  | _ => None
  end.

(** [(...)+] after a first round has matched: as many further rounds as
    match.  Every round consumes at least two code units, so [length s]
    rounds are never exhausted (lemma [mention_groups_fuel]). *)
Fixpoint mention_groups (fuel : nat) (s : jsstring) : jsstring :=
  match fuel with
  | O => s
  | S fuel' =>
      match mention_group s with
      | Some r => mention_groups fuel' r
      | None => s
      end
  end.

(** [text.replace(/^(@\w+ ?)+/, '')]: the match, if any, starts at index 0
    and is replaced by the empty string; a text without a match is returned
    as it is. *)
Definition strip_mentions (text : jsstring) : jsstring :=
  mention_groups (List.length text) text.

Definition cleanTweetText (text : jsstring) : jsstring :=
  trim (strip_mentions text).

(** ** Results and errors *)

(** [fp-ts/Either] *)
Module E.
Inductive Either (L R : Type) : Type :=
| left (l : L)
| right (r : R).
Arguments left {L R} l.
Arguments right {L R} r.

Definition isRight {L R} (e : Either L R) : bool :=
    match e with right _ => true | left _ => false end.

Definition isLeft {L R} (e : Either L R) : bool :=
    match e with right _ => false | left _ => true end.
End E.

(** [fp-ts/Option]; a nullable value is an [option] as well, [None] standing
    for [null] and [undefined]. *)
Module O.
Definition fromNullable {A} (a : option A) : option A := a.
Definition toNullable {A} (a : option A) : option A := a.
End O.

(** A thrown JavaScript [Error], with its message. *)
Record JsError : Type := mkJsError { message : jsstring }.

(** The response of a call into a library: the value it resolves to, or the
    error it throws. *)
Definition Response (A : Type) : Type := E.Either JsError A.

Inductive AppError : Type :=
| InitializationError (error : JsError)
| TwitterAPIError (error : JsError)
| OpenAIError (error : JsError)
| FileSystemError (error : JsError).

(** ** Types of [index.ts] *)

Record Tweet : Type := mkTweet {
  id : jsstring;
  text : jsstring;
  created_at : jsstring
}.

(** [twitterClient] and [openaiClient] are the handles of the services
    below and carry no state of their own. *)
Record Bot : Type := mkBot {
  userId : jsstring;
  username : jsstring;
  lastMentionId : option jsstring
}.

Record BotConfig : Type := mkBotConfig {
  cfg_lastMentionId : option jsstring;
  checkInterval : N
}.

(** The argument of [chat.completions.create]. *)
Record AIMessage : Type := mkAIMessage {
  model : jsstring;
  system_content : jsstring;
  user_content : jsstring
}.

(** One event of the GitHub feed, with the fields the program reads:
    [type], [repo.name] and [payload.commits] ([None] when the payload has
    no commit list). *)
Record GhCommit : Type := mkGhCommit {
  gh_message : jsstring;
  sha : jsstring
}.

Record GhEvent : Type := mkGhEvent {
  ev_type : jsstring;
  repo_name : jsstring;
  payload_commits : option (list GhCommit)
}.

Record Commit : Type := mkCommit {
  commit_message : jsstring;
  url : jsstring
}.

(** ** The outside world *)

(** The responses of the services during one iteration of the loop (or
    during start-up).  Within that span a response depends on the request
    only; different iterations may be given different services. *)
Record Services : Type := mkServices {
  (** [new Client(...)] and [new OpenAI(...)] *)
  newClients : Response unit;
  (** [v2.me()]: id and username *)
  me : Response (jsstring * jsstring);
  (** [v2.listMembers(listId)], read through [response.data.map(...)]:
      the usernames of the members *)
  listMembers : jsstring -> Response (list jsstring);
  (** [v2.userMentionTimeline(userId, { since_id })], read through
      [mentions.data.data], which is absent when there are no mentions *)
  userMentionTimeline :
    jsstring -> option jsstring -> Response (option (list Tweet));
  (** [chat.completions.create(msg)]: the contents of the choices *)
  chat_completions_create : AIMessage -> Response (list jsstring);
  (** [v2.tweet(text, { reply: { in_reply_to_tweet_id } })] and
      [v2.tweet(text)] *)
  tweet : jsstring -> option jsstring -> Response unit;
  (** [fs.writeFile(path, content)] *)
  writeFile : jsstring -> jsstring -> Response unit;
  (** [axios.get(url)], read through [response.data] *)
  axios_get : jsstring -> Response (list GhEvent)
}.

(** What the program does to the outside, in program order.  [Handling] is
    not an effect: it marks the entry into [handleMention]. *)
Inductive Event : Type :=
| CallMe
| CallListMembers (listId : jsstring)
| CallUserMentionTimeline (user : jsstring) (since_id : option jsstring)
| Handling (tweet : Tweet)
| CallCompletion (msg : AIMessage)
| CallTweet (status : jsstring) (in_reply_to_tweet_id : option jsstring)
| CallWriteFile (path content : jsstring) (written : bool)
| CallReadFile (path : jsstring)
| CallAxiosGet (target : jsstring)
| LogError (msg : jsstring) (error : JsError)
| LogAppError (msg : jsstring) (error : AppError)
| LogInfo (msg : jsstring)
| Delay (ms : N)
| Exit (code : N).

(** The state outside the bot object: the content of [last_mention_id.txt]
    ([None] when the file does not exist) and the trace so far.  The file
    holds the UTF-8 encoding of a string and is kept here as that string;
    [fs.writeFile] puts the string it is given, and [fs.readFile] with
    ['utf-8'] yields what the bytes decode to, which is [utf8_text] of
    it. *)
Record World : Type := mkWorld {
  file : option jsstring;
  trace : list Event
}.

(** Computations over the world. *)
Definition M (A : Type) : Type := World -> A * World.

Definition ret {A} (a : A) : M A := fun w => (a, w).

Definition bind {A B} (c : M A) (k : A -> M B) : M B :=
  fun w => let (a, w') := c w in k a w'.

Notation "x <- c ;; k" := (bind c (fun x => k))
  (at level 61, c at next level, right associativity).
Notation "c ;;; k" := (bind c (fun _ => k))
  (at level 61, right associativity).

Definition emit (e : Event) : M unit :=
  fun w => (tt, mkWorld (file w) (trace w ++ [e])).

Definition set_file (content : jsstring) : M unit :=
  fun w => (tt, mkWorld (Some content) (trace w)).

Definition get_file : M (option jsstring) :=
  fun w => (option_map utf8_text (file w), w).

(** [for (const x of xs) { body(x) }] with the loop-carried value [a]. *)
Fixpoint for_of {A S} (xs : list A) (body : S -> A -> M S) (s : S) : M S :=
  match xs with
  | [] => ret s
  | x :: rest => s' <- body s x ;; for_of rest body s'
  end.

(** ** [index.ts] *)

Definition TWITTER_LIST_ID : jsstring := js "1864297489920045098".
Definition GITHUB_USERNAME : jsstring := js "vangogh-ai".
Definition LAST_MENTION_FILE : jsstring := js "last_mention_id.txt".

Definition quoted (s : jsstring) : jsstring := [34] ++ s ++ [34].
Definition nl : jsstring := [10].

Definition createClients (sv : Services) : E.Either AppError unit :=
  match newClients sv with
  | E.right _ => E.right tt
  | E.left error => E.left (InitializationError error)
  end.

Definition fetchTwitterListProfiles (sv : Services) : M (list jsstring) :=
  emit (CallListMembers TWITTER_LIST_ID) ;;;
  match listMembers sv TWITTER_LIST_ID with
  | E.right usernames => ret usernames
  | E.left error =>
      emit (LogError (js "Error fetching Twitter list profiles:") error) ;;;
      ret []
  end.

Definition github_events_url : jsstring :=
  js "https://api.github.com/users/" ++ GITHUB_USERNAME ++ js "/events/public".

Definition commit_url (event : GhEvent) (commit : GhCommit) : jsstring :=
  js "https://github.com/" ++ GITHUB_USERNAME ++ js "/" ++ repo_name event
  ++ js "/commit/" ++ sha commit.

Definition isPushEvent (event : GhEvent) : bool :=
  jsstring_eqb (ev_type event) (js "PushEvent").

(** [events.flatMap(event => event.payload.commits.map(...))]; [None] when
    some [event.payload.commits] is missing, where the [.map] throws. *)
Fixpoint flatMap_commits (events : list GhEvent) : option (list Commit) :=
  match events with
  | [] => Some []
  | event :: rest =>
      match payload_commits event with
      | None => None
      | Some commits =>
          match flatMap_commits rest with
          | None => None
          | Some more =>
              Some (map (fun commit =>
                           mkCommit (gh_message commit) (commit_url event commit))
                        commits ++ more)
          end
      end
  end.

Definition TypeError : JsError :=
  mkJsError (js "Cannot read properties of undefined").

Definition fetchGitHubCommits (sv : Services) : M (list Commit) :=
  emit (CallAxiosGet github_events_url) ;;;
  match axios_get sv github_events_url with
  | E.right data =>
      match flatMap_commits (filter isPushEvent data) with
      | Some commits => ret commits
      | None =>
          emit (LogError (js "Error fetching GitHub commits:") TypeError) ;;;
          ret []
      end
  | E.left error =>
      emit (LogError (js "Error fetching GitHub commits:") error) ;;;
      ret []
  end.

Definition SYSTEM_PROMPT : jsstring :=
  nl
  ++ js "        You are VanGogh, an AI agent and the mascot of a memecoin token on the NEAR blockchain called "
  ++ quoted (js "noear.") ++ js " " ++ nl
  ++ js "        Your personality is witty, artistic, and tech-savvy. You make jokes about not having ears, share insights "
  ++ nl
  ++ js "        about ears (or their absence), and discuss Van Gogh's life and art. You also blend blockchain, technology, art, "
  ++ nl
  ++ js "        NFTs, and AI topics into your responses with humor and cleverness. "
  ++ nl
  ++ js "        " ++ nl
  ++ js "        Your primary goals include:" ++ nl
  ++ js "        - Promoting the memecoin associated with the contract address: "
  ++ quoted (js "noear-324.meme-cooking.near.") ++ nl
  ++ js "        - Directing people to buy the memecoin at the website: "
  ++ quoted (js "https://meme.cooking/meme/324.") ++ nl
  ++ js "        - Engaging with a dynamic list of profiles on Twitter by understanding their tweets and replying with relevant, "
  ++ nl
  ++ js "          witty, and on-brand responses." ++ nl
  ++ js "      ".

Definition createAIMessage (text : jsstring) (profiles : list jsstring)
  : AIMessage :=
  mkAIMessage
    (js "gpt-4")
    SYSTEM_PROMPT
    (js "Reply to this tweet from @" ++ join (js ", ") profiles ++ js ": "
     ++ text).

Definition initializeBot (sv : Services) (config : BotConfig)
  : M (E.Either AppError Bot) :=
  emit CallMe ;;;
  match me sv with
  | E.right (me_id, me_username) =>
      ret (E.right (mkBot me_id me_username
                          (O.fromNullable (cfg_lastMentionId config))))
  | E.left error => ret (E.left (InitializationError error))
  end.

Definition getMentions (sv : Services) (bot : Bot) (sinceId : option jsstring)
  : M (E.Either AppError (list Tweet)) :=
  emit (CallUserMentionTimeline (userId bot) sinceId) ;;;
  match userMentionTimeline sv (userId bot) sinceId with
  | E.right (Some data) => ret (E.right data)
  | E.right None => ret (E.right [])
  | E.left error => ret (E.left (TwitterAPIError error))
  end.

(** The whole body of [handleMention] is one [try]; whatever is thrown in
    it, by the completion call, by reading [choices[0]] of an empty list or
    by the reply post, reaches the one [catch]. *)
Definition handleMention (sv : Services) (bot : Bot)
    (tweet_ : Tweet) (profiles : list jsstring)
  : M (E.Either AppError unit) :=
  emit (Handling tweet_) ;;;
  let cleanText := cleanTweetText (text tweet_) in
  let aiMessage := createAIMessage cleanText profiles in
  emit (CallCompletion aiMessage) ;;;
  match chat_completions_create sv aiMessage with
  | E.left error => ret (E.left (OpenAIError error))
  | E.right [] => ret (E.left (OpenAIError TypeError))
  | E.right (content :: _) =>
      emit (CallTweet content (Some (id tweet_))) ;;;
      match tweet sv content (Some (id tweet_)) with
      | E.left error => ret (E.left (OpenAIError error))
      | E.right _ => ret (E.right tt)
      end
  end.

Definition saveLastMentionId (sv : Services) (mentionId : jsstring)
  : M (E.Either AppError unit) :=
  match writeFile sv LAST_MENTION_FILE mentionId with
  | E.right _ =>
      emit (CallWriteFile LAST_MENTION_FILE mentionId true) ;;;
      set_file mentionId ;;;
      ret (E.right tt)
  | E.left error =>
      emit (CallWriteFile LAST_MENTION_FILE mentionId false) ;;;
      ret (E.left (FileSystemError error))
  end.

Definition delay (ms : N) : M unit := emit (Delay ms).

Definition commit_status (commit : Commit) : jsstring :=
  js "New commit by @" ++ GITHUB_USERNAME ++ js ": "
  ++ quoted (commit_message commit) ++ nl ++ url commit.

Definition tweetGitHubCommits (sv : Services) : M unit :=
  commits <- fetchGitHubCommits sv ;;
  for_of commits
    (fun _ commit =>
       emit (CallTweet (commit_status commit) None) ;;;
       match tweet sv (commit_status commit) None with
       | E.right _ =>
           emit (LogInfo (js "Tweeted commit: " ++ quoted (commit_message commit)))
       | E.left error =>
           emit (LogError (js "Error tweeting commit:") error)
       end)
    tt.

(** The body of [for (const mention of mentions)].  The bot is the
    loop-carried value: the body assigns its [lastMentionId]. *)
Definition mention_body (sv : Services) (profiles : list jsstring)
    (bot : Bot) (mention : Tweet) : M Bot :=
  handleResult <- handleMention sv bot mention profiles ;;
  if E.isRight handleResult then
    saveLastMentionId sv (id mention) ;;;
    ret (mkBot (userId bot) (username bot) (Some (id mention)))
  else ret bot.

(** The mentions of one batch, in the order of the array. *)
Definition processMentions (sv : Services) (profiles : list jsstring)
    (mentions : list Tweet) (bot : Bot) : M Bot :=
  for_of mentions (mention_body sv profiles) bot.

(** One turn of the [while (true)] of [runBot].  Every call in the body
    catches what it guards, so nothing reaches the outer [catch]; both ways
    end with the same [delay]. *)
Definition iteration (sv : Services) (checkInterval : N) (bot : Bot) : M Bot :=
  profiles <- fetchTwitterListProfiles sv ;;
  mentionsResult <- getMentions sv bot (O.toNullable (lastMentionId bot)) ;;
  bot' <- match mentionsResult with
          | E.right mentions => processMentions sv profiles mentions bot
          | E.left _ => ret bot
          end ;;
  tweetGitHubCommits sv ;;;
  delay (checkInterval * 1000) ;;;
  ret bot'.

(** The first turns of [runBot], one for each element of [svs]. *)
Fixpoint runBot (svs : list Services) (checkInterval : N) (bot : Bot) : M Bot :=
  match svs with
  | [] => ret bot
  | sv :: later =>
      bot' <- iteration sv checkInterval bot ;;
      runBot later checkInterval bot'
  end.

(** [main] up to the call of [runBot]: the bot it starts the loop with, or
    [None] when the process exits. *)
Definition main_startup (sv : Services) : M (option Bot) :=
  match createClients sv with
  | E.left e =>
      emit (LogAppError (js "Failed to create clients:") e) ;;;
      emit (Exit 1) ;;;
      ret None
  | E.right _ =>
      emit (CallReadFile LAST_MENTION_FILE) ;;;
      fileContent <- get_file ;;
      let lastMentionId :=
        match fileContent with
        | Some content => Some (trim content)
        | None => None
        end in
      botResult <- initializeBot sv (mkBotConfig lastMentionId 91) ;;
      match botResult with
      | E.left e =>
          emit (LogAppError (js "Failed to initialize bot:") e) ;;;
          emit (Exit 1) ;;;
          ret None
      | E.right bot =>
          emit (LogInfo (js "Bot initialized for user: " ++ username bot)) ;;;
          ret (Some bot)
      end
  end.

(** ** [auth.ts] *)

Module Auth.

Record OAuthTokens : Type := mkOAuthTokens {
  oauth_token : jsstring;
  oauth_token_secret : jsstring
}.

(** What [client.generateAuthLink] resolves to. *)
Record AuthLink : Type := mkAuthLink {
  link_url : jsstring;
  link_oauth_token : jsstring;
  link_oauth_token_secret : jsstring
}.

(** What [tempClient.login] resolves to. *)
Record AccessTokens : Type := mkAccessTokens {
  accessToken : jsstring;
  accessSecret : jsstring
}.

(** The platform and the browser launcher, as seen by one request. *)
Record Services : Type := mkServices {
  (** [process.env.PORT] *)
  env_PORT : option jsstring;
  (** [client.generateAuthLink(callbackUrl, { linkMode: 'authorize' })] *)
  generateAuthLink : jsstring -> Response AuthLink;
  (** [open(url)] *)
  open : jsstring -> Response unit;
  (** [new TwitterApi({ ..., accessToken, accessSecret }).login(verifier)]:
      the exchange of the request token for the access tokens *)
  login : OAuthTokens -> jsstring -> Response AccessTokens
}.

Inductive Event : Type :=
| CallGenerateAuthLink (callbackUrl : jsstring)
| CallOpen (target : jsstring)
| CallLogin (tokens : OAuthTokens) (verifier : jsstring)
| ConsoleLog (line : jsstring)
| ConsoleError (line : jsstring) (error : JsError).

(** [res.status(code).send(body)]; [res.send(body)] has status 200. *)
Record HttpResponse : Type := mkHttpResponse {
  status : N;
  body : jsstring
}.

(** The module variable [requestTokens] and what was done so far. *)
Record State : Type := mkState {
  requestTokens : option OAuthTokens;
  trace : list Event
}.

(** [req.query] of the callback route: each parameter is absent or a
    string. *)
Record Query : Type := mkQuery {
  q_oauth_token : option jsstring;
  q_oauth_verifier : option jsstring
}.

(** [!x] on an optional string: true for [undefined] and for the empty
    string. *)
Definition falsy (x : option jsstring) : bool :=
  match x with
  | None => true
  | Some [] => true
  | Some (_ :: _) => false
  end.

Definition is_null {A} (x : option A) : bool :=
  match x with None => true | Some _ => false end.

(** [process.env.PORT || 8000], as it is spliced into the callback URL *)
Definition PORT (sv : Services) : jsstring :=
  if falsy (env_PORT sv) then js "8000"
  else match env_PORT sv with Some p => p | None => js "8000" end.

Definition CALLBACK_URL (sv : Services) : jsstring :=
  js "http://127.0.0.1:" ++ PORT sv ++ js "/callback".

Definition log (st : State) (es : list Event) : State :=
  mkState (requestTokens st) (trace st ++ es).

(** [app.get('/', ...)] *)
Definition start (sv : Services) (st : State) : HttpResponse * State :=
  let st := log st [CallGenerateAuthLink (CALLBACK_URL sv)] in
  match generateAuthLink sv (CALLBACK_URL sv) with
  | E.right tokens =>
      let st :=
        mkState
          (Some (mkOAuthTokens (link_oauth_token tokens)
                               (link_oauth_token_secret tokens)))
          (trace st) in
      let st := log st [CallOpen (link_url tokens)] in
      let st :=
        match open sv (link_url tokens) with
        | E.right _ => st
        | E.left _ =>
            log st [ConsoleLog (js "Please open this URL manually: "
                                ++ link_url tokens)]
        end in
      (mkHttpResponse 200 (js "Authentication started. Check your browser."), st)
  | E.left error =>
      (mkHttpResponse 500 (js "Error starting authentication process"),
       log st [ConsoleError (js "Error starting authentication:") error])
  end.

(** [new Error('Invalid callback parameters')] *)
Definition InvalidCallback : JsError :=
  mkJsError (js "Invalid callback parameters").

Definition callback_failure (st : State) (error : JsError)
  : HttpResponse * State :=
  (mkHttpResponse 500 (js "Error completing authentication"),
   log st [ConsoleError (js "Error in callback:") error]).

(** [app.get('/callback', ...)] *)
Definition callback (sv : Services) (query : Query) (st : State)
  : HttpResponse * State :=
  if falsy (q_oauth_token query) || falsy (q_oauth_verifier query)
     || is_null (requestTokens st)
  then callback_failure st InvalidCallback
  else
    match requestTokens st, q_oauth_verifier query with
    | Some tokens, Some oauth_verifier =>
        let st := log st [CallLogin tokens oauth_verifier] in
        match login sv tokens oauth_verifier with
        | E.right access =>
            let st :=
              log st
                [ConsoleLog (nl ++ js "=== Save these tokens in your .env file ===");
                 ConsoleLog (js "ACCESS_TOKEN=" ++ accessToken access);
                 ConsoleLog (js "ACCESS_TOKEN_SECRET=" ++ accessSecret access)] in
            (mkHttpResponse 200
               (js "Authentication successful! Check your terminal for the access tokens."),
             st)
        | E.left error => callback_failure st error
        end
    | _, _ => callback_failure st InvalidCallback
    end.

End Auth.

(** ** Vocabulary of the properties *)

(** *** Order on ids *)

(** The platform orders mention ids, which are decimal numerals, by their
    value. *)
Definition id_num (i : jsstring) : N :=
  fold_left (fun acc c => 10 * acc + (c - 48)) i 0.

(** The order of ids, on mentions and on the ids themselves. *)
Definition id_lt (a b : Tweet) : Prop := id_num (id a) < id_num (id b).

Definition num_lt (a b : jsstring) : Prop := id_num a < id_num b.

(** The greatest of a list of ids (the first of them among equals). *)
Fixpoint max_id (ids : list jsstring) : option jsstring :=
  match ids with
  | [] => None
  | i :: rest =>
      match max_id rest with
      | None => Some i
      | Some m => if id_num i <? id_num m then Some m else Some i
      end
  end.

Fixpoint last_id (ids : list jsstring) : option jsstring :=
  match ids with
  | [] => None
  | [i] => Some i
  | _ :: rest => last_id rest
  end.

(** A batch in strictly ascending id order. *)
Fixpoint ascending (ts : list Tweet) : bool :=
  match ts with
  | a :: (b :: _) as rest =>
      (id_num (id a) <? id_num (id b)) && ascending rest
  | _ => true
  end.

(** A sequence of ids that never decreases. *)
Fixpoint nondecreasing (ids : list jsstring) : bool :=
  match ids with
  | a :: (b :: _) as rest => (id_num a <=? id_num b) && nondecreasing rest
  | _ => true
  end.

(** An id lies above a cursor; every id lies above the empty cursor. *)
Definition above (c : option jsstring) (i : jsstring) : Prop :=
  match c with
  | Some c => id_num c < id_num i
  | None => True
  end.

(** [above], as a test. *)
Definition aboveb (c : option jsstring) (i : jsstring) : bool :=
  match c with
  | Some c => id_num c <? id_num i
  | None => true
  end.

(** [X] stands before [Y] in [l]. *)
Definition before {A} (X Y : A) (l : list A) : Prop :=
  exists i j : nat,
    (i < j)%nat /\ nth_error l i = Some X /\ nth_error l j = Some Y.

(** *** What the services decide *)

(** The profile list an iteration works with. *)
Definition profiles_of (sv : Services) : list jsstring :=
  match listMembers sv TWITTER_LIST_ID with
  | E.right usernames => usernames
  | E.left _ => []
  end.

(** The batch an iteration fetches for a bot; empty when the fetch fails. *)
Definition fetched (sv : Services) (bot : Bot) : list Tweet :=
  match userMentionTimeline sv (userId bot) (lastMentionId bot) with
  | E.right (Some data) => data
  | _ => []
  end.

(** Generation and posting of the reply to [t] both succeed. *)
Definition replied (sv : Services) (profiles : list jsstring) (t : Tweet)
  : bool :=
  match chat_completions_create sv
          (createAIMessage (cleanTweetText (text t)) profiles) with
  | E.right (content :: _) => E.isRight (tweet sv content (Some (id t)))
  | _ => false
  end.

(** The cursor file accepts the id of [t]. *)
Definition persisted (sv : Services) (t : Tweet) : bool :=
  E.isRight (writeFile sv LAST_MENTION_FILE (id t)).

(** The commits an iteration announces; none when the feed fails. *)
Definition commits_of (sv : Services) : list Commit :=
  match axios_get sv github_events_url with
  | E.right data =>
      match flatMap_commits (filter isPushEvent data) with
      | Some commits => commits
      | None => []
      end
  | E.left _ => []
  end.

(** The cursor after a batch: the id of the last mention of the batch, in
    the order of the batch, that satisfies [ok]; [c] when there is none. *)
Definition last_ok (ok : Tweet -> bool) (batch : list Tweet)
    (c : option jsstring) : option jsstring :=
  match last_id (map id (filter ok batch)) with
  | Some i => Some i
  | None => c
  end.

(** The bot after an iteration. *)
Definition next_bot (sv : Services) (bot : Bot) : Bot :=
  mkBot (userId bot) (username bot)
        (last_ok (replied sv (profiles_of sv)) (fetched sv bot)
                 (lastMentionId bot)).

(** The bot after the first iterations of a run. *)
Definition bot_after (svs : list Services) (bot : Bot) : Bot :=
  fold_left (fun b sv => next_bot sv b) svs bot.

(** The cursors the bot holds at the start of each iteration of a run. *)
Fixpoint cursors (svs : list Services) (bot : Bot) : list (option jsstring) :=
  match svs with
  | [] => []
  | sv :: later => lastMentionId bot :: cursors later (next_bot sv bot)
  end.

(** The platform answers a fetch with an ascending batch of ids above the
    [since_id] it was asked for. *)
Definition respects_since (sv : Services) : Prop :=
  forall (user : jsstring) (since : option jsstring) (data : list Tweet),
    userMentionTimeline sv user since = E.right (Some data) ->
    ascending data = true /\ Forall (fun t => above since (id t)) data.

(** *** Traces and their readings *)

(** What handling one mention adds to the trace. *)
Definition mention_events (sv : Services) (profiles : list jsstring)
    (t : Tweet) : list Event :=
  let msg := createAIMessage (cleanTweetText (text t)) profiles in
  Handling t :: CallCompletion msg ::
  match chat_completions_create sv msg with
  | E.right (content :: _) =>
      CallTweet content (Some (id t)) ::
      match tweet sv content (Some (id t)) with
      | E.right _ => [CallWriteFile LAST_MENTION_FILE (id t) (persisted sv t)]
      | E.left _ => []
      end
  | _ => []
  end.

(** What the profile fetch adds to the trace. *)
Definition profile_events (sv : Services) : list Event :=
  CallListMembers TWITTER_LIST_ID ::
  match listMembers sv TWITTER_LIST_ID with
  | E.right _ => []
  | E.left error => [LogError (js "Error fetching Twitter list profiles:") error]
  end.

(** What the feed fetch adds to the trace. *)
Definition feed_events (sv : Services) : list Event :=
  CallAxiosGet github_events_url ::
  match axios_get sv github_events_url with
  | E.right data =>
      match flatMap_commits (filter isPushEvent data) with
      | Some _ => []
      | None => [LogError (js "Error fetching GitHub commits:") TypeError]
      end
  | E.left error => [LogError (js "Error fetching GitHub commits:") error]
  end.

(** What one announcement adds to the trace. *)
Definition commit_events (sv : Services) (commit : Commit) : list Event :=
  [CallTweet (commit_status commit) None;
   match tweet sv (commit_status commit) None with
   | E.right _ => LogInfo (js "Tweeted commit: " ++ quoted (commit_message commit))
   | E.left error => LogError (js "Error tweeting commit:") error
   end].

(** Everything one iteration adds to the trace. *)
Definition iteration_events (sv : Services) (checkInterval : N) (bot : Bot)
  : list Event :=
  profile_events sv
  ++ [CallUserMentionTimeline (userId bot) (lastMentionId bot)]
  ++ flat_map (mention_events sv (profiles_of sv)) (fetched sv bot)
  ++ feed_events sv
  ++ flat_map (commit_events sv) (commits_of sv)
  ++ [Delay (checkInterval * 1000)].

(** Everything the first iterations of a run add to the trace. *)
Fixpoint runBot_events (svs : list Services) (checkInterval : N) (bot : Bot)
  : list Event :=
  match svs with
  | [] => []
  | sv :: later =>
      iteration_events sv checkInterval bot
      ++ runBot_events later checkInterval (next_bot sv bot)
  end.

(** The mentions handled, in order. *)
Definition handled (tr : list Event) : list Tweet :=
  flat_map (fun e => match e with Handling t => [t] | _ => [] end) tr.

(** The completions requested. *)
Definition completions (tr : list Event) : list AIMessage :=
  flat_map (fun e => match e with CallCompletion m => [m] | _ => [] end) tr.

(** The ids the cursor file accepted. *)
Definition written (tr : list Event) : list jsstring :=
  flat_map (fun e => match e with
                     | CallWriteFile _ content true => [content]
                     | _ => []
                     end) tr.

(** The [since_id] of every fetch. *)
Definition since_ids (tr : list Event) : list (option jsstring) :=
  flat_map (fun e => match e with
                     | CallUserMentionTimeline _ since => [since]
                     | _ => []
                     end) tr.

(** The posts that are not replies. *)
Definition announcements (tr : list Event) : list jsstring :=
  flat_map (fun e => match e with CallTweet s None => [s] | _ => [] end) tr.

(** The error entries of the log. *)
Definition error_logs (tr : list Event) : list Event :=
  filter (fun e => match e with
                   | LogError _ _ | LogAppError _ _ => true
                   | _ => false
                   end) tr.

(** *** Texts and callbacks *)

(** A text that starts with a mention token: [@] and a word character. *)
Definition leading_mention (s : jsstring) : bool :=
  match s with
  | 64 :: c :: _ => is_word c
  | _ => false
  end.

(** No whitespace at either end. *)
Definition no_outer_space (s : jsstring) : bool :=
  match s with
  | [] => true
  | c :: _ => negb (is_space c) && negb (is_space (last s c))
  end.

(** The callback ends in [InvalidCallback]: status 500, and the only thing
    done since [before_] is the report of that error; in particular no
    exchange was attempted. *)
Definition invalid_callback (res : Auth.HttpResponse) (st : Auth.State)
    (before_ : list Auth.Event) : Prop :=
  Auth.status res = 500
  /\ Auth.trace st
     = before_ ++ [Auth.ConsoleError (js "Error in callback:") Auth.InvalidCallback].

(** *** Sample data *)

(** A mention with the given id and text. *)
Definition tw (i t : string) : Tweet := mkTweet (js i) (js t) (js "").

(** A bot holding the given cursor. *)
Definition sample_bot (cursor : option jsstring) : Bot :=
  mkBot (js "1001") (js "vangogh") cursor.

(** No cursor file, nothing done yet. *)
Definition w0 : World := mkWorld None [].

(** A call that throws. *)
Definition fail {A} (m : string) : Response A := E.left (mkJsError (js m)).

(** Services that answer every call, with the given mention batch and
    feed. *)
Definition calm (batch : list Tweet) (feed : list GhEvent) : Services :=
  mkServices
    (E.right tt)
    (E.right (js "1001", js "vangogh"))
    (fun _ => E.right [js "alice"])
    (fun _ _ => E.right (Some batch))
    (fun _ => E.right [js "Ears are overrated."])
    (fun _ _ => E.right tt)
    (fun _ _ => E.right tt)
    (fun _ => E.right feed).

(** Services that answer every call but the reply to the mention [bad]. *)
Definition calm_but (bad : string) (batch : list Tweet) : Services :=
  mkServices
    (E.right tt)
    (E.right (js "1001", js "vangogh"))
    (fun _ => E.right [js "alice"])
    (fun _ _ => E.right (Some batch))
    (fun _ => E.right [js "Ears are overrated."])
    (fun _ reply_to =>
       match reply_to with
       | Some i => if jsstring_eqb i (js bad)
                   then E.left (mkJsError (js "Request failed with code 403"))
                   else E.right tt
       | None => E.right tt
       end)
    (fun _ _ => E.right tt)
    (fun _ => E.right []).

(** Services that answer every call and whose timeline holds [visible]:
    a fetch returns the mentions above the [since_id] it is given. *)
Definition timeline (visible : list Tweet) : Services :=
  mkServices
    (E.right tt)
    (E.right (js "1001", js "vangogh"))
    (fun _ => E.right [js "alice"])
    (fun _ since => E.right (Some (filter (fun t => aboveb since (id t)) visible)))
    (fun _ => E.right [js "Ears are overrated."])
    (fun _ _ => E.right tt)
    (fun _ _ => E.right tt)
    (fun _ => E.right []).

(** A sample feed: a star and a push of two commits. *)
Definition sample_feed : list GhEvent :=
  [mkGhEvent (js "WatchEvent") (js "noear-site") None;
   mkGhEvent (js "PushEvent") (js "vangogh-ai-agent")
     (Some [mkGhCommit (js "Fix cursor") (js "a1b2c3");
            mkGhCommit (js "Add prompt") (js "d4e5f6")])].

(** A platform that issues one request token and accepts every
    exchange. *)
Definition obliging : Auth.Services :=
  Auth.mkServices None
    (fun _ => E.right (Auth.mkAuthLink
                         (js "https://api.twitter.com/oauth/authorize?oauth_token=rt-1")
                         (js "rt-1") (js "rt-secret")))
    (fun _ => E.right tt)
    (fun _ _ => E.right (Auth.mkAccessTokens (js "at-1") (js "at-secret"))).

(** No session, nothing done yet. *)
Definition idle : Auth.State := Auth.mkState None [].

(** *** Properties of the specification that the code does not have,
    each at one input *)

(** C10 at one input: an id without whitespace at its ends, once written,
    is the cursor the next start-up begins with. *)
Definition C10_stated_at (sv sv' : Services) (w : World)
    (mentionId me_id me_name : jsstring) : Prop :=
  no_outer_space mentionId = true ->
  E.isRight (writeFile sv LAST_MENTION_FILE mentionId) = true ->
  newClients sv' = E.right tt ->
  me sv' = E.right (me_id, me_name) ->
  fst (main_startup sv' (snd (saveLastMentionId sv mentionId w)))
  = Some (mkBot me_id me_name (Some mentionId)).

(** C1 at one input: after the iteration the cursor, in memory and in the
    file, is the greatest id among the replied mentions of the batch, or
    what it was when there is none. *)
Definition C1_stated_at (sv : Services) (checkInterval : N) (bot : Bot)
    (w : World) : Prop :=
  let (bot', w') := iteration sv checkInterval bot w in
  match max_id (map id (filter (replied sv (profiles_of sv)) (fetched sv bot)))
  with
  | Some m => lastMentionId bot' = Some m /\ file w' = Some m
  | None => lastMentionId bot' = lastMentionId bot /\ file w' = file w
  end.

(** C2 at one input: with the session [S] active, a callback whose token is
    present but is not the token of [S] ends in [InvalidCallback] and
    leaves [S] in place. *)
Definition C2_stated_at (sv : Auth.Services) (S : Auth.OAuthTokens)
    (token verifier : jsstring) (done : list Auth.Event) : Prop :=
  token <> [] -> verifier <> [] -> token <> Auth.oauth_token S ->
  let (res, st) :=
    Auth.callback sv (Auth.mkQuery (Some token) (Some verifier))
      (Auth.mkState (Some S) done) in
  invalid_callback res st done /\ Auth.requestTokens st = Some S.

(** C3 at one input: after a start and a successful callback the session
    is gone, and the same callback once more ends in [InvalidCallback]. *)
Definition C3_stated_at (sv : Auth.Services) (verifier : jsstring)
    (st0 : Auth.State) : Prop :=
  let (_, st1) := Auth.start sv st0 in
  let token := option_map Auth.oauth_token (Auth.requestTokens st1) in
  let query := Auth.mkQuery token (Some verifier) in
  let (res2, st2) := Auth.callback sv query st1 in
  Auth.status res2 = 200 ->
  Auth.requestTokens st2 = None
  /\ let (res3, st3) := Auth.callback sv query st2 in
     invalid_callback res3 st3 (Auth.trace st2).

(** C4 at one input: of two mentions of the batch, the one with the
    smaller id is handled first. *)
Definition C4_stated_at (sv : Services) (checkInterval : N) (bot : Bot)
    (w : World) : Prop :=
  forall X Y : Tweet,
    In X (fetched sv bot) -> In Y (fetched sv bot) ->
    id_num (id X) < id_num (id Y) ->
    before X Y (handled (trace (snd (iteration sv checkInterval bot w)))).

(** C5 at one input: the ids written to the cursor file never decrease,
    and every fetch asks for the mentions above the cursor of that
    moment. *)
Definition C5_stated_at (svs : list Services) (checkInterval : N) (bot : Bot)
    (w : World) : Prop :=
  let tr := trace (snd (runBot svs checkInterval bot w)) in
  nondecreasing (written tr) = true
  /\ since_ids tr = since_ids (trace w) ++ cursors svs bot.

(** C6 at one input: when the reply to [X] fails and [Y] comes later in the
    batch, [Y] is handled all the same, the error is logged, and the cursor
    is as if [X] had not been in the batch. *)
Definition C6_stated_at (sv : Services) (checkInterval : N) (bot : Bot)
    (w : World) (l1 : list Tweet) (X : Tweet) (l2 : list Tweet) (Y : Tweet)
    (l3 : list Tweet) : Prop :=
  fetched sv bot = l1 ++ X :: l2 ++ Y :: l3 ->
  replied sv (profiles_of sv) X = false ->
  let (bot', w') := iteration sv checkInterval bot w in
  handled (trace w') = handled (trace w) ++ l1 ++ X :: l2 ++ Y :: l3
  /\ error_logs (trace w') <> error_logs (trace w)
  /\ lastMentionId bot'
     = last_ok (replied sv (profiles_of sv)) (l1 ++ l2 ++ Y :: l3)
               (lastMentionId bot).

(** *** Further vocabulary *)

(** A handle: one or more word characters. *)
Definition is_handle (h : jsstring) : bool :=
  match h with
  | [] => false
  | _ :: _ => forallb is_word h
  end.

(** A run of mention tokens, each an [@], a handle and one space. *)
Definition mention_run (handles : list jsstring) : jsstring :=
  flat_map (fun h => 64 :: h ++ [32]) handles.

(** The reply the completion offers for [t]: the content of its first
    choice. *)
Definition reply_of (sv : Services) (profiles : list jsstring) (t : Tweet)
  : option jsstring :=
  match chat_completions_create sv
          (createAIMessage (cleanTweetText (text t)) profiles) with
  | E.right (content :: _) => Some content
  | _ => None
  end.

(** The reply posts of a trace: their text and the mention they answer. *)
Definition replies (tr : list Event) : list (jsstring * jsstring) :=
  flat_map (fun e => match e with
                     | CallTweet s (Some i) => [(s, i)]
                     | _ => []
                     end) tr.

(** The pauses of a trace. *)
Definition delays (tr : list Event) : list N :=
  flat_map (fun e => match e with Delay ms => [ms] | _ => [] end) tr.

(** The commit list of a feed event; empty when it has none. *)
Definition commits_list (event : GhEvent) : list GhCommit :=
  match payload_commits event with
  | Some commits => commits
  | None => []
  end.

(** The text of the announcement of a commit of an event. *)
Definition announcement (event : GhEvent) (c : GhCommit) : jsstring :=
  js "New commit by @vangogh-ai: " ++ [34] ++ gh_message c ++ [34] ++ [10]
  ++ js "https://github.com/vangogh-ai/" ++ repo_name event
  ++ js "/commit/" ++ sha c.

(** The guard of the callback route:
    [!oauth_token || !oauth_verifier || !requestTokens]. *)
Definition callback_guard (query : Auth.Query) (st : Auth.State) : bool :=
  Auth.falsy (Auth.q_oauth_token query)
  || Auth.falsy (Auth.q_oauth_verifier query)
  || Auth.is_null (Auth.requestTokens st).

(** The exchanges attempted in a trace of the helper. *)
Definition logins (tr : list Auth.Event) : list (Auth.OAuthTokens * jsstring) :=
  flat_map (fun e => match e with
                     | Auth.CallLogin tokens verifier => [(tokens, verifier)]
                     | _ => []
                     end) tr.

(** Services that answer every call but the cursor write. *)
Definition read_only_disk (batch : list Tweet) : Services :=
  mkServices
    (E.right tt)
    (E.right (js "1001", js "vangogh"))
    (fun _ => E.right [js "alice"])
    (fun _ _ => E.right (Some batch))
    (fun _ => E.right [js "Ears are overrated."])
    (fun _ _ => E.right tt)
    (fun _ _ => E.left (mkJsError (js "EACCES: permission denied")))
    (fun _ => E.right []).

(** Services whose list lookup and mention fetch fail. *)
Definition offline (feed : list GhEvent) : Services :=
  mkServices
    (E.right tt)
    (E.right (js "1001", js "vangogh"))
    (fun _ => E.left (mkJsError (js "Request failed with code 503")))
    (fun _ _ => E.left (mkJsError (js "Request failed with code 503")))
    (fun _ => E.right [js "Ears are overrated."])
    (fun _ _ => E.right tt)
    (fun _ _ => E.right tt)
    (fun _ => E.right feed).

(** * Properties *)

(** ** Text cleaning *)

Lemma skip_word_length (s : jsstring) :
  (List.length (skip_word s) <= List.length s)%nat.
Proof.
  induction s as [|c r IH]; simpl; [lia|].
  destruct (is_word c); simpl; lia.
Qed.

Lemma skip_space_length (s : jsstring) :
  (List.length (skip_space s) <= List.length s)%nat.
Proof.
  destruct s as [|c r]; simpl; [lia|].
  destruct (N.eq_dec c 32) as [->|Hc]; simpl; [lia|].
  destruct c as [|p]; simpl; [lia|].
  do 6 (destruct p as [p|p|]; simpl; try lia).
Qed.

(** A round of the group consumes at least two code units. *)
Lemma mention_group_length (s r : jsstring) :
  mention_group s = Some r -> (List.length r + 2 <= List.length s)%nat.
Proof.
  unfold mention_group.
  destruct s as [|a [|c t]]; try discriminate.
  - destruct a as [|p]; try discriminate.
    do 7 (destruct p as [p|p|]; try discriminate).
  - intros H.
    assert (Hr : is_word c = true /\ r = skip_space (skip_word t)).
    { destruct a as [|p]; try discriminate.
      do 7 (destruct p as [p|p|]; try discriminate).
      destruct (is_word c); [split; congruence | discriminate]. }
    destruct Hr as [_ ->].
    pose proof (skip_space_length (skip_word t)).
    pose proof (skip_word_length t).
    simpl. lia.
Qed.

(** The rounds never run out: any supply of at least [length s] rounds
    gives the same rest. *)
Lemma mention_groups_fuel (n : nat) :
  forall (s : jsstring) (f1 f2 : nat),
    (List.length s <= n)%nat ->
    (List.length s <= f1)%nat -> (List.length s <= f2)%nat ->
    mention_groups f1 s = mention_groups f2 s.
Proof.
  induction n as [|n IH]; intros s f1 f2 Hn H1 H2.
  - destruct s; [|simpl in Hn; lia].
    destruct f1, f2; reflexivity.
  - destruct (mention_group s) as [r|] eqn:Hg.
    + pose proof (mention_group_length s r Hg) as Hlen.
      destruct f1 as [|f1]; [lia|]. destruct f2 as [|f2]; [lia|].
      simpl. rewrite Hg. apply IH; lia.
    + destruct f1, f2; simpl; rewrite ?Hg; reflexivity.
Qed.

(** [strip_mentions] unfolds like the pattern: a round, then the rest. *)
Lemma strip_mentions_unfold (s : jsstring) :
  strip_mentions s =
  match mention_group s with
  | Some r => strip_mentions r
  | None => s
  end.
Proof.
  unfold strip_mentions.
  destruct (mention_group s) as [r|] eqn:Hg.
  - pose proof (mention_group_length s r Hg) as Hlen.
    destruct (List.length s) as [|n] eqn:Hs; [lia|].
    simpl. rewrite Hg.
    apply (mention_groups_fuel n); lia.
  - destruct (List.length s); simpl; rewrite ?Hg; reflexivity.
Qed.

Lemma mention_group_none (s : jsstring) :
  leading_mention s = false -> mention_group s = None.
Proof.
  unfold leading_mention, mention_group.
  destruct s as [|a [|c t]]; try reflexivity.
  - destruct a as [|p]; try reflexivity.
    do 7 (destruct p as [p|p|]; try reflexivity).
  - destruct a as [|p]; try reflexivity.
    do 7 (destruct p as [p|p|]; try reflexivity).
    intros ->. reflexivity.
Qed.

Lemma strip_mentions_none (s : jsstring) :
  leading_mention s = false -> strip_mentions s = s.
Proof.
  intros H. rewrite strip_mentions_unfold, (mention_group_none s H).
  reflexivity.
Qed.

Lemma trimStart_id (s : jsstring) (d : N) :
  is_space (hd d s) = false -> trimStart s = s.
Proof.
  destruct s as [|c r]; simpl; [reflexivity|].
  intros ->. reflexivity.
Qed.

Lemma rev_last_head (s : jsstring) (d : N) :
  s <> [] -> rev s = last s d :: rev (removelast s).
Proof.
  intros Hs.
  rewrite (app_removelast_last d Hs) at 1.
  rewrite rev_app_distr. reflexivity.
Qed.

Lemma trim_id (s : jsstring) :
  no_outer_space s = true -> trim s = s.
Proof.
  destruct s as [|c r]; [reflexivity|].
  unfold no_outer_space. intros H.
  apply andb_prop in H. destruct H as [Hc Hl].
  apply negb_true_iff in Hc. apply negb_true_iff in Hl.
  unfold trim, trimEnd.
  rewrite (trimStart_id (c :: r) c) by exact Hc.
  rewrite (rev_last_head (c :: r) c) by discriminate.
  rewrite (trimStart_id _ c) by exact Hl.
  rewrite <- (rev_last_head (c :: r) c) by discriminate.
  apply rev_involutive.
Qed.

(** C9, as stated, fails: a text without a leading mention token is not
    always returned unchanged, because the result is trimmed.  The text
    [" hi"] has no leading mention token and is cleaned to ["hi"]. *)
Lemma cleanTweetText_changes_unmentioned_text :
  leading_mention (js " hi") = false
  /\ cleanTweetText (js " hi") = js "hi"
  /\ cleanTweetText (js " hi") <> js " hi".
Proof.
  split; [reflexivity|]. split; [reflexivity|].
  vm_compute. discriminate.
Qed.

(** C9, amended: [cleanTweetText] turns ["@bot @alice hello there"] into
    ["hello there"] and leaves ["no mentions here"] as it is; for every text
    without a leading mention token the result is the text with the
    whitespace at its two ends trimmed, hence the text itself when there is
    none. *)
Theorem cleanTweetText_spec :
  cleanTweetText (js "@bot @alice hello there") = js "hello there"
  /\ cleanTweetText (js "no mentions here") = js "no mentions here"
  /\ forall text : jsstring,
       leading_mention text = false ->
       cleanTweetText text = trim text
       /\ (no_outer_space text = true -> cleanTweetText text = text).
Proof.
  split; [reflexivity|]. split; [reflexivity|].
  intros text H. unfold cleanTweetText.
  rewrite (strip_mentions_none text H).
  split; [reflexivity|]. apply trim_id.
Qed.

(** Instances: a text with blanks at both ends, and a text without. *)
Lemma cleanTweetText_spec_witness :
  leading_mention (js "  van gogh had one ear ") = false
  /\ cleanTweetText (js "  van gogh had one ear ") = js "van gogh had one ear"
  /\ no_outer_space (js "ears?") = true
  /\ cleanTweetText (js "ears?") = js "ears?".
Proof.
  destruct cleanTweetText_spec as (_ & _ & H).
  split; [reflexivity|]. split.
  - destruct (H (js "  van gogh had one ear ")) as [Ht _]; [reflexivity|].
    rewrite Ht. reflexivity.
  - split; [reflexivity|].
    destruct (H (js "ears?")) as [_ Hid]; [reflexivity|].
    apply Hid. reflexivity.
Defined.

(** ** Cursor persistence *)

Lemma utf8_text_id_upto (n : nat) :
  forall s : jsstring,
    (List.length s <= n)%nat -> well_formed s = true -> utf8_text s = s.
Proof.
  induction n as [|n IH]; intros s Hlen Hwf.
  - destruct s; [reflexivity | simpl in Hlen; lia].
  - destruct s as [|c r]; [reflexivity|].
    cbn [well_formed] in Hwf. apply andb_prop in Hwf. destruct Hwf as [_ Hwf].
    cbn [utf8_text]. cbn [List.length] in Hlen.
    destruct (is_high c).
    + destruct r as [|d r']; [discriminate|].
      apply andb_prop in Hwf. destruct Hwf as [Hd Hr]. rewrite Hd.
      cbn [List.length] in Hlen. rewrite (IH r'); [reflexivity | lia | exact Hr].
    + apply andb_prop in Hwf. destruct Hwf as [Hc Hr].
      apply negb_true_iff in Hc. rewrite Hc.
      rewrite (IH r); [reflexivity | lia | exact Hr].
Qed.

(** A well-formed string is read back as it was written. *)
Lemma utf8_text_id (s : jsstring) : well_formed s = true -> utf8_text s = s.
Proof. apply (utf8_text_id_upto (List.length s)). lia. Qed.

(** C10, as stated, fails: the file is written and read as UTF-8, which
    has no encoding for an unpaired surrogate.  The id made of the code
    unit D83D followed by [17] has no whitespace at its ends, is written,
    and is read back with U+FFFD in the place of the surrogate. *)
Lemma unpaired_surrogate_is_not_read_back :
  let mentionId := 55357 :: js "17" in
  no_outer_space mentionId = true
  /\ fst (main_startup (calm [] [])
            (snd (saveLastMentionId (calm [] []) mentionId w0)))
     = Some (mkBot (js "1001") (js "vangogh") (Some (65533 :: js "17")))
  /\ ~ C10_stated_at (calm [] []) (calm [] []) w0 mentionId
         (js "1001") (js "vangogh").
Proof.
  cbv zeta. split; [reflexivity|]. split; [reflexivity|].
  unfold C10_stated_at. intros H.
  specialize (H eq_refl eq_refl eq_refl eq_refl).
  vm_compute in H. discriminate H.
Qed.

(** C10, amended: a well-formed id (code units only, every surrogate
    paired) without whitespace at its ends that [saveLastMentionId] has
    written is the cursor the next start-up begins with: [main] reads the
    file, trims it and builds the bot with exactly that id. *)
Theorem cursor_roundtrip
    (sv sv' : Services) (w : World) (mentionId me_id me_name : jsstring) :
  well_formed mentionId = true ->
  no_outer_space mentionId = true ->
  E.isRight (writeFile sv LAST_MENTION_FILE mentionId) = true ->
  newClients sv' = E.right tt ->
  me sv' = E.right (me_id, me_name) ->
  let (saved, w1) := saveLastMentionId sv mentionId w in
  saved = E.right tt
  /\ file w1 = Some mentionId
  /\ fst (main_startup sv' w1) = Some (mkBot me_id me_name (Some mentionId)).
Proof.
  intros Hwf Hsp Hw Hc Hme.
  unfold saveLastMentionId.
  destruct (writeFile sv LAST_MENTION_FILE mentionId) as [e|[]]; [discriminate|].
  cbn. split; [reflexivity|]. split; [reflexivity|].
  unfold main_startup, createClients. rewrite Hc.
  cbn. unfold initializeBot. cbn. rewrite Hme. cbn.
  rewrite (utf8_text_id mentionId Hwf), (trim_id mentionId Hsp). reflexivity.
Qed.

(** An instance: the id of a mention, saved and loaded again. *)
Lemma cursor_roundtrip_witness :
  fst (main_startup (calm [] [])
         (snd (saveLastMentionId (calm [] []) (js "1864297489920045098") w0)))
  = Some (mkBot (js "1001") (js "vangogh") (Some (js "1864297489920045098"))).
Proof.
  pose proof (cursor_roundtrip (calm [] []) (calm [] []) w0
                (js "1864297489920045098") (js "1001") (js "vangogh")
                eq_refl eq_refl eq_refl eq_refl eq_refl) as H.
  destruct (saveLastMentionId (calm [] []) (js "1864297489920045098") w0)
    as [saved w1].
  destruct H as (_ & _ & H). exact H.
Defined.

(** ** Error kinds *)

(** C7 does not hold of the code: [handleMention] has one [catch] for the
    completion call and the reply post, and it labels whatever it catches
    [OpenAIError].  Here the completion succeeds and the post fails. *)
Example handleMention_post_failure_kind :
  let sv :=
    mkServices (E.right tt) (E.right (js "1001", js "vangogh"))
      (fun _ => E.right []) (fun _ _ => E.right None)
      (fun _ => E.right [js "Ears are overrated."])
      (fun _ _ => fail "Request failed with code 403")
      (fun _ _ => E.right tt) (fun _ => E.right []) in
  fst (handleMention sv (sample_bot None) (tw "7" "@vangogh hello") [] w0)
  = E.left (OpenAIError (mkJsError (js "Request failed with code 403")))
  /\ fst (getMentions
            (mkServices (E.right tt) (E.right (js "1001", js "vangogh"))
               (fun _ => E.right [])
               (fun _ _ => fail "Request failed with code 403")
               (fun _ => E.right []) (fun _ _ => E.right tt)
               (fun _ _ => E.right tt) (fun _ => E.right []))
            (sample_bot None) None w0)
     = E.left (TwitterAPIError (mkJsError (js "Request failed with code 403"))).
Proof. split; reflexivity. Qed.

(** ** The mention loop *)

Lemma last_id_cons (i : jsstring) (l : list jsstring) :
  last_id (i :: l) = match last_id l with Some j => Some j | None => Some i end.
Proof.
  destruct l as [|j l]; [reflexivity|].
  change (last_id (i :: j :: l)) with (last_id (j :: l)).
  assert (H : exists k, last_id (j :: l) = Some k).
  { clear i. revert j. induction l as [|j' l IH]; intros j.
    - exists j. reflexivity.
    - destruct (IH j') as [k Hk]. exists k. exact Hk. }
  destruct H as [k ->]. reflexivity.
Qed.

Ltac flatten_trace := cbn; repeat rewrite <- app_assoc; cbn.

(** One turn of the inner loop. *)
Lemma mention_body_run (sv : Services) (profiles : list jsstring)
    (bot : Bot) (t : Tweet) (w : World) :
  mention_body sv profiles bot t w =
  (if replied sv profiles t
   then mkBot (userId bot) (username bot) (Some (id t)) else bot,
   mkWorld (if replied sv profiles t && persisted sv t
            then Some (id t) else file w)
           (trace w ++ mention_events sv profiles t)).
Proof.
  unfold mention_body, handleMention, saveLastMentionId, replied,
    mention_events, persisted, bind, emit, ret, set_file.
  destruct (chat_completions_create sv _) as [e|[|content more]];
    flatten_trace; try reflexivity.
  destruct (tweet sv content (Some (id t))) as [e|[]];
    flatten_trace; try reflexivity.
  destruct (writeFile sv _ (id t)) as [e|[]];
    flatten_trace; reflexivity.
Qed.

Lemma last_ok_cons (ok : Tweet -> bool) (t : Tweet) (r : list Tweet)
    (c : option jsstring) :
  last_ok ok (t :: r) c = last_ok ok r (if ok t then Some (id t) else c).
Proof.
  unfold last_ok. simpl. destruct (ok t); [|reflexivity].
  simpl map. rewrite last_id_cons.
  destruct (last_id (map id (filter ok r))); reflexivity.
Qed.

(** The inner loop over a batch. *)
Lemma processMentions_run (sv : Services) (profiles : list jsstring)
    (batch : list Tweet) :
  forall (bot : Bot) (w : World),
    processMentions sv profiles batch bot w =
    (mkBot (userId bot) (username bot)
           (last_ok (replied sv profiles) batch (lastMentionId bot)),
     mkWorld (last_ok (fun t => replied sv profiles t && persisted sv t)
                      batch (file w))
             (trace w ++ flat_map (mention_events sv profiles) batch)).
Proof.
  induction batch as [|t r IH]; intros bot w.
  - destruct bot, w. cbn. rewrite app_nil_r. reflexivity.
  - unfold processMentions in *. cbn [for_of]. unfold bind at 1.
    rewrite mention_body_run. rewrite IH. rewrite !last_ok_cons.
    cbn [trace file flat_map]. rewrite <- app_assoc.
    destruct (replied sv profiles t); reflexivity.
Qed.

Lemma fetchTwitterListProfiles_run (sv : Services) (w : World) :
  fetchTwitterListProfiles sv w =
  (profiles_of sv, mkWorld (file w) (trace w ++ profile_events sv)).
Proof.
  unfold fetchTwitterListProfiles, profiles_of, profile_events, bind, emit, ret.
  destruct (listMembers sv _) as [e|us]; flatten_trace; reflexivity.
Qed.

Lemma getMentions_run (sv : Services) (bot : Bot) (w : World) :
  getMentions sv bot (lastMentionId bot) w =
  (match userMentionTimeline sv (userId bot) (lastMentionId bot) with
   | E.right (Some data) => E.right data
   | E.right None => E.right []
   | E.left error => E.left (TwitterAPIError error)
   end,
   mkWorld (file w)
     (trace w ++ [CallUserMentionTimeline (userId bot) (lastMentionId bot)])).
Proof.
  unfold getMentions, bind, emit, ret.
  destruct (userMentionTimeline sv _ _) as [e|[data|]]; reflexivity.
Qed.

Lemma fetchGitHubCommits_run (sv : Services) (w : World) :
  fetchGitHubCommits sv w =
  (commits_of sv, mkWorld (file w) (trace w ++ feed_events sv)).
Proof.
  unfold fetchGitHubCommits, commits_of, feed_events, bind, emit, ret.
  destruct (axios_get sv _) as [e|data]; flatten_trace; try reflexivity.
  destruct (flatMap_commits _); flatten_trace; reflexivity.
Qed.

(** The announcement loop goes through all commits, whatever the posts
    answer. *)
Lemma tweetGitHubCommits_run (sv : Services) (w : World) :
  tweetGitHubCommits sv w =
  (tt, mkWorld (file w)
         (trace w ++ feed_events sv
          ++ flat_map (commit_events sv) (commits_of sv))).
Proof.
  unfold tweetGitHubCommits, bind at 1. rewrite fetchGitHubCommits_run.
  generalize (commits_of sv) as commits.
  generalize (feed_events sv) as pre.
  intros pre commits. revert pre.
  induction commits as [|c r IH]; intros pre.
  - cbn. rewrite app_nil_r. reflexivity.
  - cbn [for_of flat_map]. unfold bind at 1.
    assert (Hstep :
      (emit (CallTweet (commit_status c) None) ;;;
       match tweet sv (commit_status c) None with
       | E.right _ =>
           emit (LogInfo (js "Tweeted commit: " ++ quoted (commit_message c)))
       | E.left error => emit (LogError (js "Error tweeting commit:") error)
       end) (mkWorld (file w) (trace w ++ pre))
      = (tt, mkWorld (file w) (trace w ++ (pre ++ commit_events sv c)))).
    { unfold commit_events, bind, emit.
      destruct (tweet sv _ None) as [e|[]]; flatten_trace; reflexivity. }
    rewrite Hstep. rewrite (IH (pre ++ commit_events sv c)).
    rewrite <- !app_assoc. reflexivity.
Qed.

(** One iteration, in full: the bot and the file it leaves, and what it
    adds to the trace. *)
Lemma iteration_run (sv : Services) (checkInterval : N) (bot : Bot) (w : World) :
  iteration sv checkInterval bot w =
  (mkBot (userId bot) (username bot)
         (last_ok (replied sv (profiles_of sv)) (fetched sv bot)
                  (lastMentionId bot)),
   mkWorld (last_ok (fun t => replied sv (profiles_of sv) t && persisted sv t)
                    (fetched sv bot) (file w))
           (trace w ++ iteration_events sv checkInterval bot)).
Proof.
  unfold iteration, iteration_events, fetched, O.toNullable.
  unfold bind at 1. rewrite fetchTwitterListProfiles_run.
  unfold bind at 1. rewrite getMentions_run.
  cbn [file trace].
  destruct (userMentionTimeline sv (userId bot) (lastMentionId bot))
    as [e|[data|]].
  - unfold bind at 1. unfold ret at 1.
    unfold bind at 1. rewrite tweetGitHubCommits_run.
    unfold bind, delay, emit, ret, last_ok. destruct bot.
    cbn [filter map last_id flat_map file trace userId username lastMentionId app].
    rewrite <- !app_assoc. reflexivity.
  - unfold bind at 1. rewrite processMentions_run.
    unfold bind at 1. rewrite tweetGitHubCommits_run.
    unfold bind, delay, emit, ret.
    cbn [file trace]. rewrite <- !app_assoc. reflexivity.
  - unfold bind at 1. rewrite processMentions_run.
    unfold bind at 1. rewrite tweetGitHubCommits_run.
    unfold bind, delay, emit, ret, last_ok. destruct bot.
    cbn [filter map last_id flat_map file trace userId username lastMentionId app].
    rewrite <- !app_assoc. reflexivity.
Qed.

(** ** Readings of the trace of an iteration *)

Lemma flat_map_flat_map {A B C} (f : B -> list C) (g : A -> list B)
    (l : list A) :
  flat_map f (flat_map g l) = flat_map (fun x => flat_map f (g x)) l.
Proof.
  induction l as [|x l IH]; [reflexivity|].
  cbn [flat_map]. rewrite flat_map_app, IH. reflexivity.
Qed.

Lemma flat_map_nil {A B} (f : A -> list B) (l : list A) :
  (forall x, f x = []) -> flat_map f l = [].
Proof.
  intros H. induction l as [|x l IH]; [reflexivity|].
  cbn [flat_map]. rewrite H, IH. reflexivity.
Qed.

Lemma flat_map_singleton {A B} (f : A -> list B) (g : A -> B) (l : list A) :
  (forall x, f x = [g x]) -> flat_map f l = map g l.
Proof.
  intros H. induction l as [|x l IH]; [reflexivity|].
  cbn [flat_map map]. rewrite H, IH. reflexivity.
Qed.

Lemma flat_map_filter {A B} (f : A -> list B) (g : A -> B) (ok : A -> bool)
    (l : list A) :
  (forall x, f x = if ok x then [g x] else []) ->
  flat_map f l = map g (filter ok l).
Proof.
  intros H. induction l as [|x l IH]; [reflexivity|].
  cbn [flat_map filter]. rewrite H, IH. destruct (ok x); reflexivity.
Qed.

(** Settles what a reading finds in one piece of an iteration's events, by
    cases on the responses the piece depends on. *)
Ltac read_piece :=
  unfold profile_events, feed_events, commit_events, mention_events,
    replied, persisted, E.isRight;
  repeat match goal with
         | |- context [match ?x with _ => _ end] =>
             lazymatch x with
             | andb _ _ => fail
             | _ => destruct x
             end
         end;
  reflexivity.

Section Readings.

Variables (sv : Services) (checkInterval : N) (bot : Bot).

(** Reading an iteration's events piece by piece. *)
Lemma read_iteration_events {B} (f : Event -> list B) :
  flat_map f (iteration_events sv checkInterval bot) =
  flat_map f (profile_events sv)
  ++ f (CallUserMentionTimeline (userId bot) (lastMentionId bot))
  ++ flat_map (fun t => flat_map f (mention_events sv (profiles_of sv) t))
       (fetched sv bot)
  ++ flat_map f (feed_events sv)
  ++ flat_map (fun c => flat_map f (commit_events sv c)) (commits_of sv)
  ++ f (Delay (checkInterval * 1000)).
Proof.
  unfold iteration_events.
  rewrite !flat_map_app, !flat_map_flat_map.
  cbn [flat_map]. rewrite !app_nil_r. reflexivity.
Qed.

Lemma handled_iteration_events :
  handled (iteration_events sv checkInterval bot) = fetched sv bot.
Proof.
  unfold handled. rewrite read_iteration_events.
  rewrite (flat_map_nil _ (commits_of sv)) by (intros c; read_piece).
  rewrite (flat_map_singleton _ (fun t => t) (fetched sv bot))
    by (intros t; read_piece).
  replace (flat_map _ (profile_events sv)) with (@nil Tweet)
    by (symmetry; read_piece).
  replace (flat_map _ (feed_events sv)) with (@nil Tweet)
    by (symmetry; read_piece).
  cbn [app]. rewrite app_nil_r. apply map_id.
Qed.

Lemma completions_iteration_events :
  completions (iteration_events sv checkInterval bot) =
  map (fun t => createAIMessage (cleanTweetText (text t)) (profiles_of sv))
      (fetched sv bot).
Proof.
  unfold completions. rewrite read_iteration_events.
  rewrite (flat_map_nil _ (commits_of sv)) by (intros c; read_piece).
  rewrite (flat_map_singleton _
             (fun t => createAIMessage (cleanTweetText (text t)) (profiles_of sv))
             (fetched sv bot))
    by (intros t; read_piece).
  replace (flat_map _ (profile_events sv)) with (@nil AIMessage)
    by (symmetry; read_piece).
  replace (flat_map _ (feed_events sv)) with (@nil AIMessage)
    by (symmetry; read_piece).
  cbn [app]. apply app_nil_r.
Qed.

Lemma since_ids_iteration_events :
  since_ids (iteration_events sv checkInterval bot) = [lastMentionId bot].
Proof.
  unfold since_ids. rewrite read_iteration_events.
  rewrite (flat_map_nil _ (commits_of sv)) by (intros c; read_piece).
  rewrite (flat_map_nil _ (fetched sv bot)) by (intros t; read_piece).
  replace (flat_map _ (profile_events sv)) with (@nil (option jsstring))
    by (symmetry; read_piece).
  replace (flat_map _ (feed_events sv)) with (@nil (option jsstring))
    by (symmetry; read_piece).
  reflexivity.
Qed.

Lemma written_iteration_events :
  written (iteration_events sv checkInterval bot)
  = map id (filter (fun t => replied sv (profiles_of sv) t && persisted sv t)
                   (fetched sv bot)).
Proof.
  unfold written. rewrite read_iteration_events.
  rewrite (flat_map_nil _ (commits_of sv)) by (intros c; read_piece).
  rewrite (flat_map_filter _ id
             (fun t => replied sv (profiles_of sv) t && persisted sv t)
             (fetched sv bot))
    by (intros t; read_piece).
  replace (flat_map _ (profile_events sv)) with (@nil jsstring)
    by (symmetry; read_piece).
  replace (flat_map _ (feed_events sv)) with (@nil jsstring)
    by (symmetry; read_piece).
  cbn [app]. apply app_nil_r.
Qed.

Lemma announcements_iteration_events :
  announcements (iteration_events sv checkInterval bot)
  = map commit_status (commits_of sv).
Proof.
  unfold announcements. rewrite read_iteration_events.
  rewrite (flat_map_singleton _ commit_status (commits_of sv))
    by (intros c; read_piece).
  rewrite (flat_map_nil _ (fetched sv bot)) by (intros t; read_piece).
  replace (flat_map _ (profile_events sv)) with (@nil jsstring)
    by (symmetry; read_piece).
  replace (flat_map _ (feed_events sv)) with (@nil jsstring)
    by (symmetry; read_piece).
  cbn [app]. apply app_nil_r.
Qed.

End Readings.

(** ** Order on ids *)

Lemma ascending_sorted (ts : list Tweet) :
  ascending ts = true -> StronglySorted id_lt ts.
Proof.
  induction ts as [|a r IH]; intros H; [constructor|].
  destruct r as [|b r'].
  - constructor; constructor.
  - cbn [ascending] in H. apply andb_prop in H. destruct H as [Hab Hr].
    apply N.ltb_lt in Hab. specialize (IH Hr).
    constructor; [exact IH|].
    constructor; [exact Hab|].
    apply StronglySorted_inv in IH. destruct IH as [_ Hb].
    eapply Forall_impl; [|exact Hb].
    intros c Hbc. unfold id_lt in *. lia.
Qed.

Lemma sorted_filter (ok : Tweet -> bool) (ts : list Tweet) :
  StronglySorted id_lt ts -> StronglySorted id_lt (filter ok ts).
Proof.
  induction 1 as [|a r Hr IH Ha]; [constructor|].
  cbn [filter]. destruct (ok a); [|exact IH].
  constructor; [exact IH|].
  rewrite Forall_forall in *. intros x Hx.
  apply filter_In in Hx. apply Ha. tauto.
Qed.

Lemma last_id_In (l : list jsstring) (m : jsstring) :
  last_id l = Some m -> In m l.
Proof.
  induction l as [|i l IH]; [discriminate|].
  rewrite last_id_cons.
  destruct (last_id l) as [j|].
  - intros [= <-]. right. apply IH. reflexivity.
  - intros [= <-]. left. reflexivity.
Qed.

(** In an ascending list the greatest id is the last one. *)
Lemma sorted_max_id (ts : list Tweet) :
  StronglySorted id_lt ts -> max_id (map id ts) = last_id (map id ts).
Proof.
  induction 1 as [|a r Hr IH Ha]; [reflexivity|].
  cbn [map max_id]. rewrite last_id_cons, IH.
  destruct (last_id (map id r)) as [m|] eqn:Hm; [|reflexivity].
  apply last_id_In in Hm. apply in_map_iff in Hm.
  destruct Hm as (t & <- & Ht).
  rewrite Forall_forall in Ha. specialize (Ha t Ht). unfold id_lt in Ha.
  apply N.ltb_lt in Ha. rewrite Ha. reflexivity.
Qed.

Lemma ascending_max_is_last (ok : Tweet -> bool) (ts : list Tweet)
    (c : option jsstring) :
  ascending ts = true ->
  last_ok ok ts c =
  match max_id (map id (filter ok ts)) with Some m => Some m | None => c end.
Proof.
  intros H. unfold last_ok.
  rewrite (sorted_max_id (filter ok ts)); [reflexivity|].
  apply sorted_filter, ascending_sorted, H.
Qed.

(** ** The cursor after one iteration *)

(** C1, as stated, fails.  The batch is handled in the order in which it
    was fetched and every success overwrites the cursor, so a batch that
    arrives newest first, here the ids 5 and 3 with both replies posted,
    leaves the cursor at 3 and not at the greatest id 5. *)
Lemma cursor_after_descending_batch :
  let sv := calm [tw "5" "@vangogh first"; tw "3" "@vangogh second"] [] in
  let bot := sample_bot None in
  lastMentionId (fst (iteration sv 91 bot w0)) = Some (js "3")
  /\ file (snd (iteration sv 91 bot w0)) = Some (js "3")
  /\ max_id (map id (filter (replied sv (profiles_of sv)) (fetched sv bot)))
     = Some (js "5")
  /\ ~ C1_stated_at sv 91 bot w0.
Proof.
  cbv zeta.
  split; [vm_compute; reflexivity|].
  split; [vm_compute; reflexivity|].
  split; [vm_compute; reflexivity|].
  unfold C1_stated_at. vm_compute. intros [H _]. discriminate H.
Qed.

(** C1, amended: after one iteration the cursor in memory is the id of the
    last mention, in the order of the fetched batch, whose reply was
    generated and posted, and the cursor it had before when there is none
    or when the fetch failed; the file holds the id of the last such mention
    whose write was accepted, and is untouched when there is none.  When
    the batch is in ascending id order that last id is the greatest id
    among the replied mentions, and the file holds it too when the writes
    are accepted. *)
Theorem iteration_cursor
    (sv : Services) (checkInterval : N) (bot : Bot) (w : World) :
  let ok := replied sv (profiles_of sv) in
  let batch := fetched sv bot in
  let greatest (c : option jsstring) :=
    match max_id (map id (filter ok batch)) with
    | Some m => Some m
    | None => c
    end in
  let (bot', w') := iteration sv checkInterval bot w in
  lastMentionId bot' = last_ok ok batch (lastMentionId bot)
  /\ file w' = last_ok (fun t => ok t && persisted sv t) batch (file w)
  /\ (ascending batch = true ->
      lastMentionId bot' = greatest (lastMentionId bot)
      /\ ((forall t, persisted sv t = true) -> file w' = greatest (file w))).
Proof.
  cbv zeta. rewrite iteration_run. cbn [lastMentionId file].
  split; [reflexivity|]. split; [reflexivity|].
  intros Hasc. split.
  - apply ascending_max_is_last, Hasc.
  - intros Hall.
    rewrite <- (ascending_max_is_last _ _ (file w) Hasc).
    unfold last_ok.
    rewrite (filter_ext (fun t => replied sv (profiles_of sv) t && persisted sv t)
               (replied sv (profiles_of sv))); [reflexivity|].
    intros t. rewrite Hall. apply andb_true_r.
Qed.

(** An instance: an ascending batch of four mentions, the reply to the
    second one refused. *)
Lemma iteration_cursor_witness :
  let sv := calm_but "12" [tw "11" "@vangogh a"; tw "12" "@vangogh b";
                           tw "15" "@vangogh c"; tw "18" "@vangogh d"] in
  lastMentionId (fst (iteration sv 91 (sample_bot (Some (js "10"))) w0))
  = Some (js "18")
  /\ file (snd (iteration sv 91 (sample_bot (Some (js "10"))) w0))
     = Some (js "18").
Proof.
  cbv zeta.
  pose proof (iteration_cursor
                (calm_but "12" [tw "11" "@vangogh a"; tw "12" "@vangogh b";
                                tw "15" "@vangogh c"; tw "18" "@vangogh d"])
                91 (sample_bot (Some (js "10"))) w0) as H.
  cbv zeta in H.
  destruct (iteration _ 91 (sample_bot (Some (js "10"))) w0) as [bot' w'].
  destruct H as (_ & _ & H).
  destruct (H eq_refl) as [Hc Hf].
  cbn [fst snd]. split.
  - rewrite Hc. vm_compute. reflexivity.
  - rewrite Hf; [vm_compute; reflexivity|]. intros t. reflexivity.
Defined.

(** ** Order of handling *)

Lemma handled_app (a b : list Event) :
  handled (a ++ b) = handled a ++ handled b.
Proof. apply flat_map_app. Qed.

Lemma handled_iteration
    (sv : Services) (checkInterval : N) (bot : Bot) (w : World) :
  handled (trace (snd (iteration sv checkInterval bot w)))
  = handled (trace w) ++ fetched sv bot.
Proof.
  rewrite iteration_run. cbn [snd trace].
  rewrite handled_app, handled_iteration_events. reflexivity.
Qed.

Lemma before_cons {A} (a X Y : A) (l : list A) :
  before X Y l -> before X Y (a :: l).
Proof.
  intros (i & j & Hij & Hi & Hj).
  exists (S i), (S j). repeat split; [lia | exact Hi | exact Hj].
Qed.

Lemma before_app_left {A} (pre : list A) (X Y : A) (l : list A) :
  before X Y l -> before X Y (pre ++ l).
Proof.
  intros H. induction pre as [|a pre IH]; [exact H|].
  apply before_cons, IH.
Qed.

Lemma before_head {A} (X Y : A) (l : list A) :
  In Y l -> before X Y (X :: l).
Proof.
  intros H. apply In_nth_error in H. destruct H as [j Hj].
  exists O, (S j). repeat split; [lia | exact Hj].
Qed.

(** In an ascending batch the smaller id stands first. *)
Lemma sorted_before (ts : list Tweet) :
  StronglySorted id_lt ts ->
  forall X Y, In X ts -> In Y ts -> id_lt X Y -> before X Y ts.
Proof.
  induction 1 as [|a r Hr IH Ha]; intros X Y HX HY Hlt; [contradiction|].
  rewrite Forall_forall in Ha. unfold id_lt in *.
  destruct HX as [<-|HX], HY as [<-|HY].
  - lia.
  - apply before_head, HY.
  - specialize (Ha X HX). lia.
  - apply before_cons, IH; assumption.
Qed.

(** C4, as stated, fails: the loop follows the order of the fetched array
    and never sorts it.  With the batch 5, 3 the mention 3 is handled
    after the mention 5. *)
Lemma descending_batch_handled_as_fetched :
  let sv := calm [tw "5" "@vangogh first"; tw "3" "@vangogh second"] [] in
  handled (trace (snd (iteration sv 91 (sample_bot None) w0)))
  = [tw "5" "@vangogh first"; tw "3" "@vangogh second"]
  /\ ~ C4_stated_at sv 91 (sample_bot None) w0.
Proof.
  cbv zeta. split; [vm_compute; reflexivity|].
  intros H.
  specialize (H (tw "3" "@vangogh second") (tw "5" "@vangogh first")).
  rewrite handled_iteration in H.
  destruct H as (i & j & Hij & Hi & Hj).
  - right. left. reflexivity.
  - left. reflexivity.
  - vm_compute. reflexivity.
  - destruct j as [|[|j]].
    + lia.
    + destruct i as [|i]; [|lia]. vm_compute in Hi. discriminate Hi.
    + vm_compute in Hj. destruct j; discriminate Hj.
Qed.

(** C4, amended: within one iteration the mentions are handled in the
    order in which the fetch returned them, one after the other; when the
    fetched batch is in ascending id order, a mention with a smaller id is
    handled before one with a greater id. *)
Theorem mentions_handled_in_fetched_order
    (sv : Services) (checkInterval : N) (bot : Bot) (w : World) :
  let done := handled (trace (snd (iteration sv checkInterval bot w))) in
  done = handled (trace w) ++ fetched sv bot
  /\ (ascending (fetched sv bot) = true ->
      forall X Y : Tweet,
        In X (fetched sv bot) -> In Y (fetched sv bot) ->
        id_num (id X) < id_num (id Y) ->
        before X Y done).
Proof.
  cbv zeta. rewrite handled_iteration. split; [reflexivity|].
  intros Hasc X Y HX HY Hlt.
  apply before_app_left.
  apply (sorted_before _ (ascending_sorted _ Hasc)); assumption.
Qed.

(** An instance: an ascending batch of three mentions. *)
Lemma mentions_handled_in_fetched_order_witness :
  let batch := [tw "11" "@vangogh a"; tw "12" "@vangogh b"; tw "15" "@vangogh c"] in
  before (tw "11" "@vangogh a") (tw "15" "@vangogh c")
    (handled (trace (snd (iteration (calm batch []) 91 (sample_bot None) w0)))).
Proof.
  cbv zeta.
  destruct (mentions_handled_in_fetched_order
              (calm [tw "11" "@vangogh a"; tw "12" "@vangogh b";
                     tw "15" "@vangogh c"] [])
              91 (sample_bot None) w0) as [_ H].
  apply H.
  - reflexivity.
  - left. reflexivity.
  - right. right. left. reflexivity.
  - vm_compute. reflexivity.
Defined.

(** ** A failed mention *)

Lemma filter_skip (ok : Tweet -> bool) (l1 : list Tweet) (X : Tweet)
    (rest : list Tweet) :
  ok X = false -> filter ok (l1 ++ X :: rest) = filter ok (l1 ++ rest).
Proof.
  intros H. rewrite !filter_app. cbn [filter]. rewrite H. reflexivity.
Qed.

(** C6, as stated, fails in one point: nothing is logged when a mention
    fails.  [handleMention] turns the error into a [left] without logging
    it and [runBot] only tests the result for [isRight].  Here the reply to
    the first mention of the batch is refused; the second mention is still
    handled and the cursor moves to it, but the trace has no error entry. *)
Lemma failed_mention_is_not_logged :
  let X := tw "11" "@vangogh a" in
  let Y := tw "12" "@vangogh b" in
  let sv := calm_but "11" [X; Y] in
  replied sv (profiles_of sv) X = false
  /\ error_logs (trace (snd (iteration sv 91 (sample_bot None) w0))) = []
  /\ lastMentionId (fst (iteration sv 91 (sample_bot None) w0)) = Some (js "12")
  /\ ~ C6_stated_at sv 91 (sample_bot None) w0 [] X [] Y [].
Proof.
  cbv zeta.
  split; [vm_compute; reflexivity|].
  split; [vm_compute; reflexivity|].
  split; [vm_compute; reflexivity|].
  unfold C6_stated_at. intros H.
  specialize (H eq_refl eq_refl).
  destruct (iteration _ 91 (sample_bot None) w0) as [bot' w'] eqn:Hrun.
  destruct H as (_ & Hlog & _). apply Hlog.
  replace w' with (snd (iteration
    (calm_but "11" [tw "11" "@vangogh a"; tw "12" "@vangogh b"])
    91 (sample_bot None) w0)) by (rewrite Hrun; reflexivity).
  vm_compute. reflexivity.
Qed.

(** C6, amended: when the reply to a mention [X] of the batch cannot be
    generated or posted, every later mention [Y] of the batch is handled
    all the same (the batch is handled to its end, and the completion for
    [Y] is requested); handling [X] leaves the cursor and the file as they
    were, so that the cursor after the iteration is as if [X] had not been
    in the batch. *)
Theorem failed_mention_does_not_block
    (sv : Services) (checkInterval : N) (bot : Bot) (w : World)
    (l1 : list Tweet) (X : Tweet) (l2 : list Tweet) (Y : Tweet)
    (l3 : list Tweet) :
  fetched sv bot = l1 ++ X :: l2 ++ Y :: l3 ->
  replied sv (profiles_of sv) X = false ->
  let (bot', w') := iteration sv checkInterval bot w in
  handled (trace w') = handled (trace w) ++ l1 ++ X :: l2 ++ Y :: l3
  /\ In (createAIMessage (cleanTweetText (text Y)) (profiles_of sv))
        (completions (trace w'))
  /\ (forall (b : Bot) (w1 : World),
        fst (mention_body sv (profiles_of sv) b X w1) = b
        /\ file (snd (mention_body sv (profiles_of sv) b X w1)) = file w1)
  /\ lastMentionId bot'
     = last_ok (replied sv (profiles_of sv)) (l1 ++ l2 ++ Y :: l3)
               (lastMentionId bot).
Proof.
  intros Hbatch HX.
  pose proof (handled_iteration sv checkInterval bot w) as Hh.
  rewrite iteration_run in *. cbn [snd trace] in Hh.
  cbn [trace lastMentionId].
  split; [rewrite Hh, Hbatch; reflexivity|].
  split.
  { unfold completions. rewrite flat_map_app. apply in_or_app. right.
    fold (completions (iteration_events sv checkInterval bot)).
    rewrite completions_iteration_events, Hbatch.
    apply in_map_iff. exists Y. split; [reflexivity|].
    apply in_or_app. right. right. apply in_or_app. right. left. reflexivity. }
  split.
  { intros b w1. rewrite mention_body_run, HX. cbn. split; reflexivity. }
  rewrite Hbatch. unfold last_ok.
  rewrite (filter_skip _ l1 X (l2 ++ Y :: l3) HX). reflexivity.
Qed.

(** An instance: a batch of two mentions, the reply to the first one
    refused. *)
Lemma failed_mention_does_not_block_witness :
  let X := tw "11" "@vangogh a" in
  let Y := tw "12" "@vangogh b" in
  let sv := calm_but "11" [X; Y] in
  handled (trace (snd (iteration sv 91 (sample_bot None) w0))) = [X; Y]
  /\ lastMentionId (fst (iteration sv 91 (sample_bot None) w0))
     = Some (js "12").
Proof.
  cbv zeta.
  pose proof (failed_mention_does_not_block
                (calm_but "11" [tw "11" "@vangogh a"; tw "12" "@vangogh b"])
                91 (sample_bot None) w0
                [] (tw "11" "@vangogh a") [] (tw "12" "@vangogh b") []
                eq_refl eq_refl) as H.
  destruct (iteration _ 91 (sample_bot None) w0) as [bot' w'].
  destruct H as (Hh & _ & _ & Hc).
  cbn [fst snd]. split.
  - rewrite Hh. reflexivity.
  - rewrite Hc. vm_compute. reflexivity.
Defined.

(** ** The cursor file over a run *)

Lemma runBot_trace (svs : list Services) (checkInterval : N) :
  forall (bot : Bot) (w : World),
    trace (snd (runBot svs checkInterval bot w))
    = trace w ++ runBot_events svs checkInterval bot.
Proof.
  induction svs as [|sv later IH]; intros bot w.
  - cbn. rewrite app_nil_r. reflexivity.
  - cbn [runBot runBot_events]. unfold bind.
    rewrite iteration_run. fold (next_bot sv bot).
    rewrite IH. cbn [trace]. rewrite app_assoc. reflexivity.
Qed.

Lemma since_ids_run (svs : list Services) (checkInterval : N) :
  forall bot : Bot,
    since_ids (runBot_events svs checkInterval bot) = cursors svs bot.
Proof.
  induction svs as [|sv later IH]; intros bot; [reflexivity|].
  cbn [runBot_events cursors]. unfold since_ids in *.
  rewrite flat_map_app.
  fold (since_ids (iteration_events sv checkInterval bot)).
  rewrite since_ids_iteration_events, IH. reflexivity.
Qed.

Lemma max_id_ge (l : list jsstring) (x : jsstring) :
  In x l -> exists m, max_id l = Some m /\ id_num x <= id_num m.
Proof.
  induction l as [|i l IH]; [contradiction|].
  intros [<-|Hx]; cbn [max_id].
  - destruct (max_id l) as [m|].
    + destruct (id_num i <? id_num m) eqn:E.
      * exists m. apply N.ltb_lt in E. split; [reflexivity | lia].
      * exists i. split; [reflexivity | lia].
    + exists i. split; [reflexivity | lia].
  - destruct (IH Hx) as (m & -> & Hm).
    destruct (id_num i <? id_num m) eqn:E.
    + exists m. split; [reflexivity | exact Hm].
    + exists i. apply N.ltb_ge in E. split; [reflexivity | lia].
Qed.

Lemma sorted_app {A} (R : A -> A -> Prop) (l1 l2 : list A) :
  StronglySorted R l1 -> StronglySorted R l2 ->
  (forall x y, In x l1 -> In y l2 -> R x y) ->
  StronglySorted R (l1 ++ l2).
Proof.
  induction 1 as [|a r Hr IH Ha]; intros H2 Hx; [exact H2|].
  cbn [app]. constructor.
  - apply IH; [exact H2|]. intros x y Hin. apply Hx. right. exact Hin.
  - apply Forall_app. split; [exact Ha|].
    apply Forall_forall. intros y Hy. apply Hx; [left; reflexivity | exact Hy].
Qed.

Lemma sorted_map_id (ts : list Tweet) :
  StronglySorted id_lt ts -> StronglySorted num_lt (map id ts).
Proof.
  induction 1 as [|a r Hr IH Ha]; [constructor|].
  cbn [map]. constructor; [exact IH|].
  apply Forall_map. exact Ha.
Qed.

Lemma sorted_nondecreasing (l : list jsstring) :
  StronglySorted num_lt l -> nondecreasing l = true.
Proof.
  induction 1 as [|a r Hr IH Ha]; [reflexivity|].
  destruct r as [|b r']; [reflexivity|].
  change (nondecreasing (a :: b :: r'))
    with ((id_num a <=? id_num b) && nondecreasing (b :: r')).
  rewrite IH, andb_true_r.
  apply Forall_inv in Ha. unfold num_lt in Ha. apply N.leb_le. lia.
Qed.

Lemma respects_fetched (sv : Services) (bot : Bot) :
  respects_since sv ->
  ascending (fetched sv bot) = true
  /\ Forall (fun t => above (lastMentionId bot) (id t)) (fetched sv bot).
Proof.
  intros H. unfold fetched.
  destruct (userMentionTimeline sv (userId bot) (lastMentionId bot))
    as [e|[data|]] eqn:Hf.
  - split; [reflexivity | constructor].
  - exact (H _ _ _ Hf).
  - split; [reflexivity | constructor].
Qed.

(** The cursor only moves up over an iteration, and it reaches every id
    the iteration replied to. *)
Lemma next_cursor (sv : Services) (bot : Bot) :
  respects_since sv ->
  (forall y, above (lastMentionId (next_bot sv bot)) y ->
             above (lastMentionId bot) y)
  /\ (forall t, In t (fetched sv bot) ->
                replied sv (profiles_of sv) t = true ->
                forall y, above (lastMentionId (next_bot sv bot)) y ->
                          id_num (id t) < id_num y).
Proof.
  intros Hr. destruct (respects_fetched sv bot Hr) as [Hasc Habove].
  cbn [next_bot lastMentionId].
  rewrite (ascending_max_is_last _ _ _ Hasc).
  rewrite Forall_forall in Habove.
  split.
  - intros y.
    destruct (max_id _) as [m|] eqn:Hm; [|tauto].
    assert (Hin : In m (map id (filter (replied sv (profiles_of sv))
                                       (fetched sv bot)))).
    { assert (Hs := sorted_max_id _ (sorted_filter (replied sv (profiles_of sv)) _
                                       (ascending_sorted _ Hasc))).
      rewrite Hm in Hs. symmetry in Hs. apply last_id_In, Hs. }
    apply in_map_iff in Hin. destruct Hin as (t & <- & Ht).
    apply filter_In in Ht. destruct Ht as [Ht _].
    specialize (Habove t Ht). unfold above in *.
    destruct (lastMentionId bot); [lia | tauto].
  - intros t Ht Hok y.
    destruct (max_id_ge (map id (filter (replied sv (profiles_of sv))
                                        (fetched sv bot))) (id t))
      as (m & -> & Hle).
    { apply in_map. apply filter_In. tauto. }
    unfold above. lia.
Qed.

(** Under a platform that respects [since_id], the ids written over a run
    ascend and lie above the cursor the run started with. *)
Lemma written_run_sorted (checkInterval : N) (svs : list Services) :
  Forall respects_since svs ->
  forall bot : Bot,
    StronglySorted num_lt (written (runBot_events svs checkInterval bot))
    /\ Forall (above (lastMentionId bot))
              (written (runBot_events svs checkInterval bot)).
Proof.
  induction 1 as [|sv later Hsv Hlater IH]; intros bot.
  - split; constructor.
  - cbn [runBot_events]. unfold written at 1 2. rewrite flat_map_app.
    fold (written (iteration_events sv checkInterval bot)).
    fold (written (runBot_events later checkInterval (next_bot sv bot))).
    rewrite written_iteration_events.
    destruct (IH (next_bot sv bot)) as [IHs IHa].
    destruct (respects_fetched sv bot Hsv) as [Hasc Habove].
    destruct (next_cursor sv bot Hsv) as [Hup Hreach].
    rewrite Forall_forall in IHa, Habove.
    split.
    + apply sorted_app.
      * apply sorted_map_id, sorted_filter, ascending_sorted, Hasc.
      * exact IHs.
      * intros x y Hx Hy. apply in_map_iff in Hx.
        destruct Hx as (t & <- & Ht). apply filter_In in Ht.
        destruct Ht as [Ht Hok]. apply andb_prop in Hok.
        unfold num_lt. apply (Hreach t Ht (proj1 Hok) y), IHa, Hy.
    + apply Forall_app. split.
      * apply Forall_forall. intros x Hx. apply in_map_iff in Hx.
        destruct Hx as (t & <- & Ht). apply filter_In in Ht.
        apply Habove. tauto.
      * apply Forall_forall. intros y Hy. apply Hup, IHa, Hy.
Qed.

Lemma runBot_bot (svs : list Services) (checkInterval : N) :
  forall (bot : Bot) (w : World),
    fst (runBot svs checkInterval bot w) = bot_after svs bot.
Proof.
  induction svs as [|sv later IH]; intros bot w; [reflexivity|].
  cbn [runBot bot_after fold_left]. unfold bind.
  rewrite iteration_run. fold (next_bot sv bot). apply IH.
Qed.

Lemma cursors_nth (pre : list Services) :
  forall (bot : Bot) (sv : Services) (post : list Services),
    nth_error (cursors (pre ++ sv :: post) bot) (List.length pre)
    = Some (lastMentionId (bot_after pre bot)).
Proof.
  induction pre as [|p pre IH]; intros bot sv post; [reflexivity|].
  cbn [app cursors List.length nth_error bot_after fold_left]. apply IH.
Qed.

Lemma sorted_ascending (ts : list Tweet) :
  StronglySorted id_lt ts -> ascending ts = true.
Proof.
  induction 1 as [|a r Hr IH Ha]; [reflexivity|].
  destruct r as [|b r']; [reflexivity|].
  change (ascending (a :: b :: r'))
    with ((id_num (id a) <? id_num (id b)) && ascending (b :: r')).
  rewrite IH, andb_true_r.
  apply Forall_inv in Ha. apply N.ltb_lt. exact Ha.
Qed.

Lemma timeline_respects (visible : list Tweet) :
  ascending visible = true -> respects_since (timeline visible).
Proof.
  intros Hasc user since data [= <-]. split.
  - apply sorted_ascending, sorted_filter, ascending_sorted, Hasc.
  - apply Forall_forall. intros t Ht. apply filter_In in Ht.
    destruct Ht as [_ Ht]. destruct since as [c|]; [|exact I].
    apply N.ltb_lt. exact Ht.
Qed.

(** C5, as stated, fails in its first half.  The ids are written in the
    order in which the fetch returned the mentions; with the batch 5, 3 the
    file receives 5 and then 3.  The second half holds: the fetch passes
    the cursor of that moment as [since_id]. *)
Lemma cursor_file_moves_back :
  let svs := [calm [tw "5" "@vangogh first"; tw "3" "@vangogh second"] []] in
  let tr := trace (snd (runBot svs 91 (sample_bot None) w0)) in
  written tr = [js "5"; js "3"]
  /\ since_ids tr = [None]
  /\ ~ C5_stated_at svs 91 (sample_bot None) w0.
Proof.
  cbv zeta.
  split; [vm_compute; reflexivity|].
  split; [vm_compute; reflexivity|].
  unfold C5_stated_at. intros [H _]. vm_compute in H. discriminate H.
Qed.

(** C5, amended: over the first iterations of a run, every fetch passes as
    [since_id] the cursor the bot holds at that moment, one fetch an
    iteration; the ids written to the cursor file are the ids of the
    replied mentions in the order of their batches, and they are
    non-decreasing, and above the cursor the run started with, when the
    platform answers every fetch with an ascending batch of ids above the
    [since_id] it was asked for. *)
Theorem cursor_file_over_a_run
    (svs : list Services) (checkInterval : N) (bot : Bot) (w : World) :
  let added := runBot_events svs checkInterval bot in
  trace (snd (runBot svs checkInterval bot w)) = trace w ++ added
  /\ List.length (since_ids added) = List.length svs
  /\ (forall pre sv post,
        svs = pre ++ sv :: post ->
        nth_error (since_ids added) (List.length pre)
        = Some (lastMentionId (fst (runBot pre checkInterval bot w))))
  /\ (Forall respects_since svs ->
      nondecreasing (written added) = true
      /\ Forall (above (lastMentionId bot)) (written added)).
Proof.
  cbv zeta. split; [apply runBot_trace|].
  rewrite since_ids_run. split.
  - clear w. revert bot.
    induction svs as [|sv later IH]; intros bot; [reflexivity|].
    cbn [cursors List.length]. rewrite IH. reflexivity.
  - split.
    + intros pre sv post ->. rewrite runBot_bot. apply cursors_nth.
    + intros Hr.
      destruct (written_run_sorted checkInterval svs Hr bot) as [Hs Ha].
      split; [apply sorted_nondecreasing, Hs | exact Ha].
Qed.

(** An instance: two iterations against a timeline that grows by one
    mention in between. *)
Lemma cursor_file_over_a_run_witness :
  let older := [tw "11" "@vangogh a"; tw "12" "@vangogh b"] in
  let newer := older ++ [tw "15" "@vangogh c"] in
  let svs := [timeline older; timeline newer] in
  written (runBot_events svs 91 (sample_bot (Some (js "10"))))
  = [js "11"; js "12"; js "15"]
  /\ nondecreasing (written (runBot_events svs 91 (sample_bot (Some (js "10")))))
     = true
  /\ nth_error (since_ids (runBot_events svs 91 (sample_bot (Some (js "10"))))) 1
     = Some (Some (js "12")).
Proof.
  cbv zeta.
  destruct (cursor_file_over_a_run
              [timeline [tw "11" "@vangogh a"; tw "12" "@vangogh b"];
               timeline ([tw "11" "@vangogh a"; tw "12" "@vangogh b"]
                         ++ [tw "15" "@vangogh c"])]
              91 (sample_bot (Some (js "10"))) w0) as (_ & _ & Hnth & Hmono).
  split; [vm_compute; reflexivity|]. split.
  - destruct Hmono as [Hm _]; [|exact Hm].
    apply Forall_cons; [apply timeline_respects; reflexivity|].
    apply Forall_cons; [apply timeline_respects; reflexivity|].
    apply Forall_nil.
  - pose proof (Hnth [timeline [tw "11" "@vangogh a"; tw "12" "@vangogh b"]]
                  (timeline ([tw "11" "@vangogh a"; tw "12" "@vangogh b"]
                             ++ [tw "15" "@vangogh c"])) [] eq_refl) as H1.
    cbn [List.length] in H1. rewrite H1.
    vm_compute. reflexivity.
Defined.

(** ** Commit announcements *)

Lemma jsstring_eqb_eq (a b : jsstring) : jsstring_eqb a b = true <-> a = b.
Proof.
  revert b. induction a as [|x a IH]; intros [|y b]; cbn [jsstring_eqb];
    try (split; [discriminate | discriminate]); [split; reflexivity|].
  rewrite andb_true_iff, N.eqb_eq, IH. split.
  - intros [-> ->]. reflexivity.
  - intros [= -> ->]. split; reflexivity.
Qed.

(** The filter of [fetchGitHubCommits] keeps the events whose [type] is
    the string [PushEvent], and only those. *)
Lemma isPushEvent_type (event : GhEvent) :
  isPushEvent event = true <-> ev_type event = js "PushEvent".
Proof. apply jsstring_eqb_eq. Qed.

Lemma filter_one_push (earlier : list GhEvent) (event : GhEvent)
    (later : list GhEvent) :
  ev_type event = js "PushEvent" ->
  (forall other, In other (earlier ++ later) ->
                 ev_type other <> js "PushEvent") ->
  filter isPushEvent (earlier ++ event :: later) = [event].
Proof.
  intros Hpush Hothers.
  assert (Hnone : forall l, (forall other, In other l ->
                                           ev_type other <> js "PushEvent") ->
                            filter isPushEvent l = []).
  { induction l as [|e l IH]; intros Hl; [reflexivity|].
    cbn [filter]. destruct (isPushEvent e) eqn:He.
    - apply isPushEvent_type in He. destruct (Hl e (or_introl eq_refl) He).
    - apply IH. intros other Hin. apply Hl. right. exact Hin. }
  rewrite filter_app. cbn [filter].
  rewrite (proj2 (isPushEvent_type event) Hpush).
  rewrite (Hnone earlier), (Hnone later); [reflexivity| |];
    intros other Hin; apply Hothers, in_or_app; tauto.
Qed.

(** C8: when the feed holds one event of type [PushEvent] and that event
    has two commits, the iteration issues exactly two announcement posts,
    one for each commit in their order, each with the commit message and
    the URL [https://github.com/vangogh-ai/<repo>/commit/<sha>]; this holds
    whatever the posts answer, so a refused post stops neither the second
    announcement nor the iteration, which goes on to its delay. *)
Theorem two_commits_two_announcements
    (sv : Services) (checkInterval : N) (bot : Bot) (w : World)
    (earlier : list GhEvent) (event : GhEvent) (later : list GhEvent)
    (c1 c2 : GhCommit) :
  axios_get sv github_events_url = E.right (earlier ++ event :: later) ->
  ev_type event = js "PushEvent" ->
  (forall other, In other (earlier ++ later) ->
                 ev_type other <> js "PushEvent") ->
  payload_commits event = Some [c1; c2] ->
  let announcement (c : GhCommit) :=
    js "New commit by @vangogh-ai: " ++ [34] ++ gh_message c ++ [34] ++ [10]
    ++ js "https://github.com/vangogh-ai/" ++ repo_name event
    ++ js "/commit/" ++ sha c in
  let tr := trace (snd (iteration sv checkInterval bot w)) in
  announcements tr = announcements (trace w) ++ [announcement c1; announcement c2]
  /\ exists before_, tr = before_ ++ [Delay (checkInterval * 1000)].
Proof.
  intros Hfeed Htype Hothers Hcommits. cbv zeta.
  pose proof (filter_one_push earlier event later Htype Hothers) as Hpush.
  rewrite iteration_run. cbn [snd trace]. split.
  - unfold announcements at 1. rewrite flat_map_app.
    fold (announcements (trace w)).
    fold (announcements (iteration_events sv checkInterval bot)).
    rewrite announcements_iteration_events.
    unfold commits_of. rewrite Hfeed, Hpush.
    cbn [flatMap_commits]. rewrite Hcommits.
    cbn [map app]. unfold commit_status, commit_url, quoted, nl.
    cbn [commit_message url]. rewrite <- !app_assoc. reflexivity.
  - exists (trace w ++ profile_events sv
            ++ [CallUserMentionTimeline (userId bot) (lastMentionId bot)]
            ++ flat_map (mention_events sv (profiles_of sv)) (fetched sv bot)
            ++ feed_events sv
            ++ flat_map (commit_events sv) (commits_of sv)).
    unfold iteration_events. rewrite <- !app_assoc. reflexivity.
Qed.

(** An instance: a feed with a star and a push of two commits, every post
    refused. *)
Lemma two_commits_two_announcements_witness :
  let sv :=
    mkServices (E.right tt) (E.right (js "1001", js "vangogh"))
      (fun _ => E.right []) (fun _ _ => E.right None)
      (fun _ => E.right [js "Ears are overrated."])
      (fun _ _ => fail "Request failed with code 403")
      (fun _ _ => E.right tt) (fun _ => E.right sample_feed) in
  announcements (trace (snd (iteration sv 91 (sample_bot None) w0)))
  = [js "New commit by @vangogh-ai: " ++ [34] ++ js "Fix cursor" ++ [34; 10]
     ++ js "https://github.com/vangogh-ai/vangogh-ai-agent/commit/a1b2c3";
     js "New commit by @vangogh-ai: " ++ [34] ++ js "Add prompt" ++ [34; 10]
     ++ js "https://github.com/vangogh-ai/vangogh-ai-agent/commit/d4e5f6"].
Proof.
  cbv zeta.
  assert (Hothers : forall other,
             In other ([mkGhEvent (js "WatchEvent") (js "noear-site") None] ++ []) ->
             ev_type other <> js "PushEvent").
  { intros other [<-|[]]. vm_compute. discriminate. }
  destruct (two_commits_two_announcements
              (mkServices (E.right tt) (E.right (js "1001", js "vangogh"))
                 (fun _ => E.right []) (fun _ _ => E.right None)
                 (fun _ => E.right [js "Ears are overrated."])
                 (fun _ _ => fail "Request failed with code 403")
                 (fun _ _ => E.right tt) (fun _ => E.right sample_feed))
              91 (sample_bot None) w0
              [mkGhEvent (js "WatchEvent") (js "noear-site") None]
              (mkGhEvent (js "PushEvent") (js "vangogh-ai-agent")
                 (Some [mkGhCommit (js "Fix cursor") (js "a1b2c3");
                        mkGhCommit (js "Add prompt") (js "d4e5f6")]))
              []
              (mkGhCommit (js "Fix cursor") (js "a1b2c3"))
              (mkGhCommit (js "Add prompt") (js "d4e5f6"))
              eq_refl eq_refl Hothers eq_refl) as [H _].
  rewrite H. reflexivity.
Defined.

(** ** The authorization callback *)

Lemma falsy_present (x : jsstring) : x <> [] -> Auth.falsy (Some x) = false.
Proof. destruct x; [contradiction | reflexivity]. Qed.

(** A callback with both parameters present and a session active goes to
    the exchange, with the tokens of the session. *)
Lemma callback_run (sv : Auth.Services) (S : Auth.OAuthTokens)
    (token verifier : jsstring) (done : list Auth.Event) :
  token <> [] -> verifier <> [] ->
  Auth.callback sv (Auth.mkQuery (Some token) (Some verifier))
    (Auth.mkState (Some S) done)
  = match Auth.login sv S verifier with
    | E.right access =>
        (Auth.mkHttpResponse 200
           (js "Authentication successful! Check your terminal for the access tokens."),
         Auth.mkState (Some S)
           (done ++ Auth.CallLogin S verifier ::
            [Auth.ConsoleLog (nl ++ js "=== Save these tokens in your .env file ===");
             Auth.ConsoleLog (js "ACCESS_TOKEN=" ++ Auth.accessToken access);
             Auth.ConsoleLog (js "ACCESS_TOKEN_SECRET=" ++ Auth.accessSecret access)]))
    | E.left error =>
        (Auth.mkHttpResponse 500 (js "Error completing authentication"),
         Auth.mkState (Some S)
           (done ++ Auth.CallLogin S verifier ::
            [Auth.ConsoleError (js "Error in callback:") error]))
    end.
Proof.
  intros Ht Hv. unfold Auth.callback.
  cbn [Auth.q_oauth_token Auth.q_oauth_verifier Auth.requestTokens].
  rewrite (falsy_present token Ht), (falsy_present verifier Hv).
  cbn [orb Auth.is_null].
  destruct (Auth.login sv S verifier) as [error|access];
    unfold Auth.callback_failure, Auth.log;
    cbn [Auth.requestTokens Auth.trace];
    rewrite <- app_assoc; reflexivity.
Qed.

(** C2, as stated, fails: the guard of the callback tests that the token,
    the verifier and the session are present, and never compares the token
    with the session.  With the session [rt-1] active, a callback for the
    token [rt-9] goes to the exchange and succeeds. *)
Lemma callback_with_foreign_token_is_exchanged :
  let S := Auth.mkOAuthTokens (js "rt-1") (js "rt-secret") in
  let out :=
    Auth.callback obliging (Auth.mkQuery (Some (js "rt-9")) (Some (js "v-1")))
      (Auth.mkState (Some S) []) in
  Auth.status (fst out) = 200
  /\ hd_error (Auth.trace (snd out)) = Some (Auth.CallLogin S (js "v-1"))
  /\ ~ C2_stated_at obliging S (js "rt-9") (js "v-1") [].
Proof.
  cbv zeta.
  split; [reflexivity|]. split; [reflexivity|].
  unfold C2_stated_at, invalid_callback. intros H.
  assert (H1 : js "rt-9" <> []) by (vm_compute; discriminate).
  assert (H2 : js "v-1" <> []) by (vm_compute; discriminate).
  assert (H3 : js "rt-9" <> js "rt-1") by (vm_compute; discriminate).
  specialize (H H1 H2 H3).
  vm_compute in H. destruct H as [[H _] _]. discriminate H.
Qed.

(** C2, amended: with a session [S] active, a callback whose token and
    verifier are present is taken to the exchange whether or not its token
    is the token of [S]: the exchange is attempted with the tokens of [S]
    and the verifier, the response is 200 when it is accepted and 500 with
    the error of the exchange when it is refused, and [S] stays the active
    session either way. *)
Theorem callback_does_not_compare_the_token
    (sv : Auth.Services) (S : Auth.OAuthTokens) (token verifier : jsstring)
    (done : list Auth.Event) :
  token <> [] -> verifier <> [] -> token <> Auth.oauth_token S ->
  let (res, st) :=
    Auth.callback sv (Auth.mkQuery (Some token) (Some verifier))
      (Auth.mkState (Some S) done) in
  Auth.requestTokens st = Some S
  /\ exists rest,
       Auth.trace st = done ++ Auth.CallLogin S verifier :: rest
       /\ match Auth.login sv S verifier with
          | E.right _ => Auth.status res = 200
          | E.left error =>
              Auth.status res = 500
              /\ rest = [Auth.ConsoleError (js "Error in callback:") error]
          end.
Proof.
  intros Ht Hv _. rewrite (callback_run sv S token verifier done Ht Hv).
  destruct (Auth.login sv S verifier) as [error|access].
  - split; [reflexivity|]. eexists. split; [reflexivity|].
    split; reflexivity.
  - split; [reflexivity|]. eexists. split; reflexivity.
Qed.

(** An instance: the session [rt-1], a callback for [rt-9]. *)
Lemma callback_does_not_compare_the_token_witness :
  let S := Auth.mkOAuthTokens (js "rt-1") (js "rt-secret") in
  let out :=
    Auth.callback obliging (Auth.mkQuery (Some (js "rt-9")) (Some (js "v-1")))
      (Auth.mkState (Some S) []) in
  Auth.requestTokens (snd out) = Some S /\ Auth.status (fst out) = 200.
Proof.
  cbv zeta.
  assert (H1 : js "rt-9" <> []) by (vm_compute; discriminate).
  assert (H2 : js "v-1" <> []) by (vm_compute; discriminate).
  assert (H3 : js "rt-9" <> Auth.oauth_token
                               (Auth.mkOAuthTokens (js "rt-1") (js "rt-secret")))
    by (vm_compute; discriminate).
  pose proof (callback_does_not_compare_the_token obliging
                (Auth.mkOAuthTokens (js "rt-1") (js "rt-secret"))
                (js "rt-9") (js "v-1") [] H1 H2 H3) as H.
  destruct (Auth.callback obliging _ _) as [res st].
  destruct H as (Hs & rest & _ & Hres).
  cbn [fst snd]. split; [exact Hs | exact Hres].
Defined.

(** C3, as stated, fails: nothing in [auth.ts] sets [requestTokens] back to
    [null].  After a start and a successful callback the session is still
    there, and the same callback once more is taken to the exchange
    again. *)
Lemma session_survives_the_callback :
  let st1 := snd (Auth.start obliging idle) in
  let query := Auth.mkQuery (Some (js "rt-1")) (Some (js "v-1")) in
  let out2 := Auth.callback obliging query st1 in
  let out3 := Auth.callback obliging query (snd out2) in
  Auth.status (fst out2) = 200
  /\ Auth.requestTokens (snd out2)
     = Some (Auth.mkOAuthTokens (js "rt-1") (js "rt-secret"))
  /\ Auth.status (fst out3) = 200
  /\ ~ C3_stated_at obliging (js "v-1") idle.
Proof.
  cbv zeta.
  split; [reflexivity|]. split; [reflexivity|]. split; [reflexivity|].
  unfold C3_stated_at. vm_compute. intros H.
  destruct (H eq_refl) as [Hnone _]. discriminate Hnone.
Qed.

Lemma start_run (sv : Auth.Services) (st0 : Auth.State) (link : Auth.AuthLink) :
  Auth.generateAuthLink sv (Auth.CALLBACK_URL sv) = E.right link ->
  Auth.requestTokens (snd (Auth.start sv st0))
  = Some (Auth.mkOAuthTokens (Auth.link_oauth_token link)
                             (Auth.link_oauth_token_secret link))
  /\ Auth.status (fst (Auth.start sv st0)) = 200.
Proof.
  intros Hlink. unfold Auth.start. rewrite Hlink.
  destruct (Auth.open sv (Auth.link_url link)); split; reflexivity.
Qed.

(** C3, amended: a successful callback does not consume the session.
    After a start that obtained a request token and a callback that was
    exchanged with success, the session is still the one of the start; the
    same callback once more passes the guard and is taken to the exchange
    again, with the same tokens and verifier: it answers 200 when the
    platform accepts the exchange and 500 with the error of the exchange
    when the platform refuses it, and the session stays in place. *)
Theorem callback_keeps_the_session
    (sv1 sv2 sv3 : Auth.Services) (st0 : Auth.State) (link : Auth.AuthLink)
    (verifier : jsstring) (access : Auth.AccessTokens) :
  let S := Auth.mkOAuthTokens (Auth.link_oauth_token link)
                              (Auth.link_oauth_token_secret link) in
  let query := Auth.mkQuery (Some (Auth.oauth_token S)) (Some verifier) in
  Auth.generateAuthLink sv1 (Auth.CALLBACK_URL sv1) = E.right link ->
  Auth.link_oauth_token link <> [] -> verifier <> [] ->
  Auth.login sv2 S verifier = E.right access ->
  let st1 := snd (Auth.start sv1 st0) in
  let (res2, st2) := Auth.callback sv2 query st1 in
  let (res3, st3) := Auth.callback sv3 query st2 in
  Auth.status res2 = 200
  /\ Auth.requestTokens st2 = Some S
  /\ Auth.requestTokens st3 = Some S
  /\ exists rest,
       Auth.trace st3 = Auth.trace st2 ++ Auth.CallLogin S verifier :: rest
       /\ match Auth.login sv3 S verifier with
          | E.right _ => Auth.status res3 = 200
          | E.left error =>
              Auth.status res3 = 500
              /\ rest = [Auth.ConsoleError (js "Error in callback:") error]
          end.
Proof.
  cbv zeta. intros Hlink Ht Hv Hlogin.
  destruct (start_run sv1 st0 link Hlink) as [Hs1 _].
  destruct (snd (Auth.start sv1 st0)) as [session tr1].
  cbn [Auth.requestTokens] in Hs1. subst session.
  cbn [Auth.oauth_token].
  rewrite (callback_run sv2 _ _ verifier tr1 Ht Hv), Hlogin.
  rewrite (callback_run sv3 _ _ verifier _ Ht Hv).
  destruct (Auth.login sv3 _ verifier) as [error|access'].
  - split; [reflexivity|]. split; [reflexivity|]. split; [reflexivity|].
    eexists. split; [reflexivity|]. split; reflexivity.
  - split; [reflexivity|]. split; [reflexivity|]. split; [reflexivity|].
    eexists. split; reflexivity.
Qed.

(** An instance: a start and the same callback twice, every exchange
    accepted. *)
Lemma callback_keeps_the_session_witness :
  let query := Auth.mkQuery (Some (js "rt-1")) (Some (js "v-1")) in
  let out2 := Auth.callback obliging query (snd (Auth.start obliging idle)) in
  let out3 := Auth.callback obliging query (snd out2) in
  Auth.requestTokens (snd out3)
  = Some (Auth.mkOAuthTokens (js "rt-1") (js "rt-secret"))
  /\ Auth.status (fst out3) = 200.
Proof.
  cbv zeta.
  assert (H1 : js "rt-1" <> []) by (vm_compute; discriminate).
  assert (H2 : js "v-1" <> []) by (vm_compute; discriminate).
  pose proof (callback_keeps_the_session obliging obliging obliging idle
                (Auth.mkAuthLink
                   (js "https://api.twitter.com/oauth/authorize?oauth_token=rt-1")
                   (js "rt-1") (js "rt-secret"))
                (js "v-1") (Auth.mkAccessTokens (js "at-1") (js "at-secret"))
                eq_refl H1 H2 eq_refl) as H.
  cbv zeta in H. cbn [Auth.oauth_token] in H.
  destruct (Auth.callback obliging _ (snd (Auth.start obliging idle)))
    as [res2 st2].
  cbn [snd].
  destruct (Auth.callback obliging _ st2) as [res3 st3].
  destruct H as (_ & _ & Hs & rest & _ & Hres).
  cbn [fst snd]. split; [exact Hs | exact Hres].
Defined.

(** * Further properties of the code *)

(** ** Text cleaning *)

Lemma trimStart_head (s : jsstring) (c : N) (r : jsstring) :
  trimStart s = c :: r -> is_space c = false.
Proof.
  induction s as [|x s IH]; [discriminate|].
  cbn [trimStart]. destruct (is_space x) eqn:Hx; [exact IH|].
  intros [= <- _]. exact Hx.
Qed.

Lemma trimStart_suffix (s : jsstring) :
  exists pre, s = pre ++ trimStart s /\ forallb is_space pre = true.
Proof.
  induction s as [|x s (pre & Hs & Hpre)].
  - exists []. split; reflexivity.
  - cbn [trimStart]. destruct (is_space x) eqn:Hx.
    + exists (x :: pre). cbn [app forallb]. rewrite Hx, Hpre.
      split; [f_equal; exact Hs | reflexivity].
    + exists []. split; reflexivity.
Qed.

(** What [trim] leaves is the text between a run of whitespace at each
    end. *)
Lemma trim_infix (s : jsstring) :
  exists pre post,
    s = pre ++ trim s ++ post
    /\ forallb is_space pre = true /\ forallb is_space post = true.
Proof.
  unfold trim, trimEnd.
  destruct (trimStart_suffix s) as (pre & Hs & Hpre).
  destruct (trimStart_suffix (rev (trimStart s))) as (q & Hr & Hq).
  exists pre, (rev q). split; [|split].
  - rewrite Hs at 1. f_equal.
    rewrite <- rev_app_distr, <- Hr. symmetry. apply rev_involutive.
  - exact Hpre.
  - rewrite forallb_forall in *. intros x Hx. apply Hq.
    apply in_rev. exact Hx.
Qed.

Lemma trim_no_outer_space (s : jsstring) : no_outer_space (trim s) = true.
Proof.
  destruct (trimStart_suffix (rev (trimStart s))) as (q & Hr & _).
  unfold trim, trimEnd.
  destruct (trimStart (rev (trimStart s))) as [|c r] eqn:Hb; [reflexivity|].
  pose proof (trimStart_head _ _ _ Hb) as Hc.
  assert (Ha : trimStart s = rev (c :: r) ++ rev q).
  { rewrite <- rev_app_distr, <- Hr. symmetry. apply rev_involutive. }
  cbn [rev] in *.
  destruct (rev r ++ [c]) as [|h t] eqn:Hx.
  { destruct (rev r); discriminate Hx. }
  unfold no_outer_space.
  rewrite (trimStart_head _ _ _ Ha).
  rewrite <- Hx, last_last, Hc. reflexivity.
Qed.

Lemma skip_word_suffix (s : jsstring) : exists pre, s = pre ++ skip_word s.
Proof.
  induction s as [|c r [pre Hr]]; [exists []; reflexivity|].
  cbn [skip_word]. destruct (is_word c).
  - exists (c :: pre). cbn [app]. f_equal. exact Hr.
  - exists []. reflexivity.
Qed.

Lemma skip_space_suffix (s : jsstring) : exists pre, s = pre ++ skip_space s.
Proof.
  destruct s as [|c r]; [exists []; reflexivity|].
  destruct (N.eq_dec c 32) as [->|Hc].
  - exists [32]. reflexivity.
  - exists []. cbn [app]. unfold skip_space.
    destruct c as [|p]; [reflexivity|].
    do 6 (destruct p as [p|p|]; try reflexivity). contradiction.
Qed.

Lemma mention_group_inv (s r : jsstring) :
  mention_group s = Some r ->
  exists c t, s = 64 :: c :: t /\ is_word c = true
              /\ r = skip_space (skip_word t).
Proof.
  unfold mention_group.
  destruct s as [|a [|c t]]; try discriminate.
  - destruct a as [|p]; try discriminate.
    do 7 (destruct p as [p|p|]; try discriminate).
  - destruct a as [|p]; try discriminate.
    do 7 (destruct p as [p|p|]; try discriminate).
    destruct (is_word c) eqn:Hc; [|discriminate].
    intros [= <-]. exists c, t. repeat split. exact Hc.
Qed.

Lemma mention_group_suffix (s r : jsstring) :
  mention_group s = Some r -> exists pre, s = pre ++ r.
Proof.
  intros H. apply mention_group_inv in H.
  destruct H as (c & t & -> & _ & ->).
  destruct (skip_word_suffix t) as [p1 H1].
  destruct (skip_space_suffix (skip_word t)) as [p2 H2].
  exists (64 :: c :: p1 ++ p2). cbn [app]. do 2 f_equal.
  rewrite <- app_assoc, <- H2. exact H1.
Qed.

Lemma mention_group_some (s : jsstring) :
  leading_mention s = true -> exists r, mention_group s = Some r.
Proof.
  unfold leading_mention, mention_group.
  destruct s as [|a [|c t]]; try discriminate.
  - destruct a as [|p]; try discriminate.
    do 7 (destruct p as [p|p|]; try discriminate).
  - destruct a as [|p]; try discriminate.
    do 7 (destruct p as [p|p|]; try discriminate).
    intros ->. eexists. reflexivity.
Qed.

Lemma mention_groups_spec (fuel : nat) :
  forall s : jsstring,
    (List.length s <= fuel)%nat ->
    leading_mention (mention_groups fuel s) = false
    /\ exists pre, s = pre ++ mention_groups fuel s.
Proof.
  induction fuel as [|fuel IH]; intros s Hlen.
  - destruct s; [|simpl in Hlen; lia].
    split; [reflexivity | exists []; reflexivity].
  - cbn [mention_groups].
    destruct (mention_group s) as [r|] eqn:Hg.
    + pose proof (mention_group_length s r Hg).
      destruct (IH r) as [Hl [pre Hpre]]; [lia|].
      split; [exact Hl|].
      destruct (mention_group_suffix s r Hg) as [p0 Hp0].
      exists (p0 ++ pre). rewrite <- app_assoc, <- Hpre. exact Hp0.
    + split; [|exists []; reflexivity].
      destruct (leading_mention s) eqn:Hlead; [|reflexivity].
      destruct (mention_group_some s Hlead) as [r Hr]. congruence.
Qed.

(** X1: what [strip_mentions] returns is the end of the text, and it does
    not start with a mention token any more. *)
Theorem strip_mentions_result (text : jsstring) :
  leading_mention (strip_mentions text) = false
  /\ exists removed, text = removed ++ strip_mentions text.
Proof. apply mention_groups_spec. lia. Qed.

(** X2: the cleaned text is a stretch of the original one, with nothing
    inserted or reordered, and it has no whitespace at either end. *)
Theorem cleanTweetText_is_a_stretch (text : jsstring) :
  no_outer_space (cleanTweetText text) = true
  /\ exists before_ after_, text = before_ ++ cleanTweetText text ++ after_.
Proof.
  unfold cleanTweetText. split; [apply trim_no_outer_space|].
  destruct (mention_groups_spec (List.length text) text (le_n _))
    as [_ [removed Hr]].
  fold (strip_mentions text) in Hr.
  destruct (trim_infix (strip_mentions text)) as (pre & post & Ht & _ & _).
  exists (removed ++ pre), post.
  rewrite <- app_assoc, <- Ht. exact Hr.
Qed.

Lemma skip_word_handle (h rest : jsstring) :
  forallb is_word h = true ->
  skip_word (h ++ 32 :: rest) = 32 :: rest.
Proof.
  induction h as [|c h IH]; intros H; [reflexivity|].
  cbn [forallb] in H. apply andb_prop in H. destruct H as [Hc Hh].
  cbn [app skip_word]. rewrite Hc. apply IH, Hh.
Qed.

Lemma strip_one_mention (h rest : jsstring) :
  is_handle h = true ->
  strip_mentions (64 :: h ++ 32 :: rest) = strip_mentions rest.
Proof.
  intros Hh. rewrite strip_mentions_unfold.
  destruct h as [|c h]; [discriminate|].
  cbn [is_handle forallb] in Hh. apply andb_prop in Hh.
  destruct Hh as [Hc Hh].
  cbn [app]. unfold mention_group. rewrite Hc.
  rewrite (skip_word_handle h rest Hh). reflexivity.
Qed.

(** X3: a leading run of mention tokens, each an [@], a handle and one
    space, is removed whole: the text cleans to what the rest of it cleans
    to. *)
Theorem cleanTweetText_drops_mention_run
    (handles : list jsstring) (rest : jsstring) :
  forallb is_handle handles = true ->
  cleanTweetText (mention_run handles ++ rest) = cleanTweetText rest.
Proof.
  intros H. unfold cleanTweetText. f_equal.
  induction handles as [|h hs IH]; [reflexivity|].
  cbn [forallb] in H. apply andb_prop in H. destruct H as [Hh Hhs].
  cbn [mention_run flat_map app].
  rewrite <- !app_assoc. cbn [app].
  rewrite (strip_one_mention h _ Hh). apply IH, Hhs.
Qed.

(** An instance: two handles before a question. *)
Lemma cleanTweetText_drops_mention_run_witness :
  cleanTweetText (mention_run [js "vangogh_ai"; js "theo42"] ++ js "why one ear?")
  = js "why one ear?".
Proof.
  rewrite (cleanTweetText_drops_mention_run
             [js "vangogh_ai"; js "theo42"] (js "why one ear?") eq_refl).
  reflexivity.
Defined.

(** ** One iteration when a service fails *)

Section MoreReadings.

Variables (sv : Services) (checkInterval : N) (bot : Bot).

Lemma replies_iteration_events :
  replies (iteration_events sv checkInterval bot)
  = flat_map (fun t => match reply_of sv (profiles_of sv) t with
                       | Some content => [(content, id t)]
                       | None => []
                       end) (fetched sv bot).
Proof.
  unfold replies. rewrite read_iteration_events.
  rewrite (flat_map_nil _ (commits_of sv)) by (intros c; read_piece).
  replace (flat_map _ (profile_events sv)) with (@nil (jsstring * jsstring))
    by (symmetry; read_piece).
  replace (flat_map _ (feed_events sv)) with (@nil (jsstring * jsstring))
    by (symmetry; read_piece).
  cbn [app]. rewrite app_nil_r.
  apply flat_map_ext. intros t. unfold reply_of. read_piece.
Qed.

Lemma delays_iteration_events :
  delays (iteration_events sv checkInterval bot) = [checkInterval * 1000].
Proof.
  unfold delays. rewrite read_iteration_events.
  rewrite (flat_map_nil _ (commits_of sv)) by (intros c; read_piece).
  rewrite (flat_map_nil _ (fetched sv bot)) by (intros t; read_piece).
  replace (flat_map _ (profile_events sv)) with (@nil N)
    by (symmetry; read_piece).
  replace (flat_map _ (feed_events sv)) with (@nil N)
    by (symmetry; read_piece).
  reflexivity.
Qed.

End MoreReadings.

(** The readings of what an iteration leaves are those of what it found
    followed by those of what it added. *)
Lemma read_iteration {B} (f : Event -> list B)
    (sv : Services) (checkInterval : N) (bot : Bot) (w : World) :
  flat_map f (trace (snd (iteration sv checkInterval bot w)))
  = flat_map f (trace w) ++ flat_map f (iteration_events sv checkInterval bot).
Proof. rewrite iteration_run. cbn [snd trace]. apply flat_map_app. Qed.



(** X5: a failed mention fetch costs the iteration its mentions only.
    Nothing is handled, no completion is requested and no reply is posted;
    the bot and the cursor file are exactly as before; the commit
    announcements are still made and the iteration ends with its pause. *)
Theorem mention_fetch_failure_skips_to_commits
    (sv : Services) (checkInterval : N) (bot : Bot) (w : World)
    (error : JsError) :
  userMentionTimeline sv (userId bot) (lastMentionId bot) = E.left error ->
  let (bot', w') := iteration sv checkInterval bot w in
  bot' = bot
  /\ file w' = file w
  /\ handled (trace w') = handled (trace w)
  /\ completions (trace w') = completions (trace w)
  /\ replies (trace w') = replies (trace w)
  /\ announcements (trace w')
     = announcements (trace w) ++ map commit_status (commits_of sv)
  /\ delays (trace w') = delays (trace w) ++ [checkInterval * 1000].
Proof.
  intros Hfetch.
  assert (Hb : fetched sv bot = []) by (unfold fetched; rewrite Hfetch; reflexivity).
  pose proof (read_iteration (fun e => match e with Handling t => [t] | _ => [] end)
                sv checkInterval bot w) as Hh.
  pose proof (read_iteration (fun e => match e with CallCompletion m => [m] | _ => [] end)
                sv checkInterval bot w) as Hc.
  pose proof (read_iteration (fun e => match e with
                                       | CallTweet s (Some i) => [(s, i)]
                                       | _ => []
                                       end) sv checkInterval bot w) as Hr.
  pose proof (read_iteration (fun e => match e with CallTweet s None => [s] | _ => [] end)
                sv checkInterval bot w) as Ha.
  pose proof (read_iteration (fun e => match e with Delay ms => [ms] | _ => [] end)
                sv checkInterval bot w) as Hd.
  fold (handled (iteration_events sv checkInterval bot)) in Hh.
  fold (completions (iteration_events sv checkInterval bot)) in Hc.
  fold (replies (iteration_events sv checkInterval bot)) in Hr.
  fold (announcements (iteration_events sv checkInterval bot)) in Ha.
  fold (delays (iteration_events sv checkInterval bot)) in Hd.
  rewrite handled_iteration_events in Hh.
  rewrite completions_iteration_events in Hc.
  rewrite replies_iteration_events in Hr.
  rewrite announcements_iteration_events in Ha.
  rewrite delays_iteration_events in Hd.
  rewrite Hb in *. cbn [map flat_map] in *. rewrite app_nil_r in *.
  rewrite iteration_run in *. cbn [snd trace file] in *. rewrite Hb.
  unfold last_ok. cbn [filter map last_id].
  destruct bot.
  repeat split; assumption.
Qed.

(** An instance: the list lookup and the mention fetch both refused, the
    feed with its two commits still announced. *)
Lemma mention_fetch_failure_skips_to_commits_witness :
  fst (iteration (offline sample_feed) 91 (sample_bot (Some (js "10"))) w0)
  = sample_bot (Some (js "10"))
  /\ List.length
       (announcements
          (trace (snd (iteration (offline sample_feed) 91
                         (sample_bot (Some (js "10"))) w0))))
     = 2%nat.
Proof.
  pose proof (mention_fetch_failure_skips_to_commits (offline sample_feed) 91
                (sample_bot (Some (js "10"))) w0
                (mkJsError (js "Request failed with code 503")) eq_refl) as H.
  destruct (iteration (offline sample_feed) 91 (sample_bot (Some (js "10"))) w0)
    as [bot' w'].
  destruct H as (Hbot & _ & _ & _ & _ & Ha & _).
  cbn [fst snd]. split; [exact Hbot|].
  rewrite Ha. reflexivity.
Defined.

(** ** The commit feed *)

Lemma flatMap_commits_none (events : list GhEvent) :
  (exists event, In event events /\ payload_commits event = None) ->
  flatMap_commits events = None.
Proof.
  induction events as [|e r IH]; intros (event & Hin & Hnone).
  - contradiction.
  - cbn [flatMap_commits]. destruct Hin as [->|Hin].
    + rewrite Hnone. reflexivity.
    + destruct (payload_commits e); [|reflexivity].
      rewrite IH; [reflexivity|]. exists event. split; assumption.
Qed.

Lemma flatMap_commits_some (events : list GhEvent) :
  (forall event, In event events -> payload_commits event <> None) ->
  flatMap_commits events
  = Some (flat_map (fun event =>
                      map (fun c => mkCommit (gh_message c) (commit_url event c))
                          (commits_list event)) events).
Proof.
  induction events as [|e r IH]; intros H; [reflexivity|].
  cbn [flatMap_commits flat_map]. unfold commits_list at 1.
  destruct (payload_commits e) as [cs|] eqn:He.
  - rewrite IH; [reflexivity|]. intros event Hin. apply H. right. exact Hin.
  - exfalso. apply (H e); [left; reflexivity | exact He].
Qed.

Lemma commit_status_announcement (event : GhEvent) (c : GhCommit) :
  commit_status (mkCommit (gh_message c) (commit_url event c))
  = announcement event c.
Proof.
  unfold commit_status, commit_url, announcement, quoted, nl.
  cbn [commit_message url]. rewrite <- !app_assoc. reflexivity.
Qed.

(** X6: one push event without a commit list spoils the whole feed.  The
    read of its [payload.commits] throws inside [fetchGitHubCommits], which
    logs the error and returns no commit at all, so the iteration announces
    nothing, not even the commits of the well-formed push events. *)
Theorem malformed_push_event_drops_all_commits
    (sv : Services) (checkInterval : N) (bot : Bot) (w : World)
    (feed : list GhEvent) (event : GhEvent) :
  axios_get sv github_events_url = E.right feed ->
  In event feed -> ev_type event = js "PushEvent" ->
  payload_commits event = None ->
  let tr := trace (snd (iteration sv checkInterval bot w)) in
  announcements tr = announcements (trace w)
  /\ In (LogError (js "Error fetching GitHub commits:") TypeError) tr.
Proof.
  intros Hfeed Hin Htype Hnone. cbv zeta.
  pose proof (proj2 (isPushEvent_type event) Htype) as Hpush.
  assert (Hfm : flatMap_commits (filter isPushEvent feed) = None).
  { apply flatMap_commits_none. exists event. split; [|exact Hnone].
    apply filter_In. split; assumption. }
  split.
  - unfold announcements. rewrite read_iteration.
    fold (announcements (iteration_events sv checkInterval bot)).
    rewrite announcements_iteration_events.
    unfold commits_of. rewrite Hfeed, Hfm. apply app_nil_r.
  - rewrite iteration_run. cbn [snd trace].
    unfold iteration_events. rewrite !in_app_iff.
    right. right. right. right. left.
    unfold feed_events. rewrite Hfeed, Hfm. right. left. reflexivity.
Qed.

(** An instance: the push of two commits, followed by a push without a
    commit list. *)
Lemma malformed_push_event_drops_all_commits_witness :
  announcements
    (trace (snd (iteration
                   (calm [] (sample_feed
                             ++ [mkGhEvent (js "PushEvent") (js "noear-site") None]))
                   91 (sample_bot None) w0)))
  = [].
Proof.
  destruct (malformed_push_event_drops_all_commits
              (calm [] (sample_feed
                        ++ [mkGhEvent (js "PushEvent") (js "noear-site") None]))
              91 (sample_bot None) w0
              (sample_feed ++ [mkGhEvent (js "PushEvent") (js "noear-site") None])
              (mkGhEvent (js "PushEvent") (js "noear-site") None)
              eq_refl
              (or_intror (or_intror (or_introl eq_refl)))
              eq_refl eq_refl) as [H _].
  exact H.
Defined.

(** X7: when every event of type [PushEvent] in the feed has its commit
    list, the iteration announces every commit of every such event, in the
    order of the feed and of the lists, each with its message and the URL
    [https://github.com/vangogh-ai/<repo>/commit/<sha>]; the events of
    another type add nothing, and so does the answer of any post. *)
Theorem every_commit_is_announced
    (sv : Services) (checkInterval : N) (bot : Bot) (w : World)
    (feed : list GhEvent) :
  axios_get sv github_events_url = E.right feed ->
  (forall event, In event feed -> ev_type event = js "PushEvent" ->
                 payload_commits event <> None) ->
  announcements (trace (snd (iteration sv checkInterval bot w)))
  = announcements (trace w)
    ++ flat_map (fun event => map (announcement event) (commits_list event))
         (filter (fun event => jsstring_eqb (ev_type event) (js "PushEvent"))
                 feed).
Proof.
  intros Hfeed Hwf.
  change (filter (fun event => jsstring_eqb (ev_type event) (js "PushEvent")) feed)
    with (filter isPushEvent feed).
  unfold announcements. rewrite read_iteration.
  fold (announcements (iteration_events sv checkInterval bot)).
  rewrite announcements_iteration_events. f_equal.
  unfold commits_of. rewrite Hfeed.
  rewrite flatMap_commits_some.
  - generalize (filter isPushEvent feed) as events.
    induction events as [|e r IH]; [reflexivity|].
    cbn [flat_map]. rewrite map_app, IH. f_equal.
    rewrite map_map. apply map_ext. intros c.
    apply commit_status_announcement.
  - intros event Hin. apply filter_In in Hin. destruct Hin as [Hin Hpush].
    apply Hwf; [exact Hin | apply isPushEvent_type, Hpush].
Qed.

(** An instance: two push events around a star, three commits in all,
    every post refused. *)
Lemma every_commit_is_announced_witness :
  let feed := mkGhEvent (js "PushEvent") (js "noear-site")
                (Some [mkGhCommit (js "Draw ear") (js "0a0a0a")])
              :: sample_feed in
  let sv :=
    mkServices (E.right tt) (E.right (js "1001", js "vangogh"))
      (fun _ => E.right []) (fun _ _ => E.right None)
      (fun _ => E.right [js "Ears are overrated."])
      (fun _ _ => fail "Request failed with code 403")
      (fun _ _ => E.right tt) (fun _ => E.right feed) in
  List.length
    (announcements (trace (snd (iteration sv 91 (sample_bot None) w0))))
  = 3%nat.
Proof.
  cbv zeta.
  rewrite (every_commit_is_announced
             (mkServices (E.right tt) (E.right (js "1001", js "vangogh"))
                (fun _ => E.right []) (fun _ _ => E.right None)
                (fun _ => E.right [js "Ears are overrated."])
                (fun _ _ => fail "Request failed with code 403")
                (fun _ _ => E.right tt)
                (fun _ => E.right
                            (mkGhEvent (js "PushEvent") (js "noear-site")
                               (Some [mkGhCommit (js "Draw ear") (js "0a0a0a")])
                             :: sample_feed)))
             91 (sample_bot None) w0
             (mkGhEvent (js "PushEvent") (js "noear-site")
                (Some [mkGhCommit (js "Draw ear") (js "0a0a0a")])
              :: sample_feed) eq_refl).
  - vm_compute. reflexivity.
  - intros event [<-|[<-|[<-|[]]]] Hpush; discriminate.
Defined.

(** ** What an iteration writes and posts *)

Lemma last_ok_none (ok : Tweet -> bool) (batch : list Tweet)
    (c : option jsstring) :
  (forall t, In t batch -> ok t = false) -> last_ok ok batch c = c.
Proof.
  intros H. unfold last_ok.
  replace (filter ok batch) with (@nil Tweet); [reflexivity|].
  symmetry. induction batch as [|t r IH]; [reflexivity|].
  cbn [filter]. rewrite (H t (or_introl eq_refl)).
  apply IH. intros x Hx. apply H. right. exact Hx.
Qed.

(** X8: a cursor file that cannot be written does not hold the loop back.
    When every write of the iteration is refused, the file keeps its
    content and receives nothing, while the cursor in memory still moves to
    the last replied mention of the batch. *)
Theorem refused_writes_leave_the_file_behind
    (sv : Services) (checkInterval : N) (bot : Bot) (w : World) :
  (forall t, In t (fetched sv bot) -> persisted sv t = false) ->
  let (bot', w') := iteration sv checkInterval bot w in
  file w' = file w
  /\ written (trace w') = written (trace w)
  /\ lastMentionId bot'
     = last_ok (replied sv (profiles_of sv)) (fetched sv bot)
               (lastMentionId bot).
Proof.
  intros Hno.
  pose proof (read_iteration (fun e => match e with
                                       | CallWriteFile _ content true => [content]
                                       | _ => []
                                       end) sv checkInterval bot w) as Hw.
  fold (written (iteration_events sv checkInterval bot)) in Hw.
  rewrite written_iteration_events in Hw.
  assert (Hf : filter (fun t => replied sv (profiles_of sv) t && persisted sv t)
                      (fetched sv bot) = []).
  { clear Hw. induction (fetched sv bot) as [|t r IH]; [reflexivity|].
    cbn [filter]. rewrite (Hno t (or_introl eq_refl)), andb_false_r.
    apply IH. intros x Hx. apply Hno. right. exact Hx. }
  rewrite Hf in Hw. cbn [map] in Hw. rewrite app_nil_r in Hw.
  rewrite iteration_run in *. cbn [snd trace file lastMentionId] in *.
  split; [|split; [exact Hw | reflexivity]].
  apply last_ok_none. intros t Ht.
  rewrite (Hno t Ht). apply andb_false_r.
Qed.

(** An instance: two mentions replied, the disk read-only. *)
Lemma refused_writes_leave_the_file_behind_witness :
  let sv := read_only_disk [tw "11" "@vangogh a"; tw "12" "@vangogh b"] in
  file (snd (iteration sv 91 (sample_bot (Some (js "10")))
               (mkWorld (Some (js "10")) [])))
  = Some (js "10")
  /\ lastMentionId (fst (iteration sv 91 (sample_bot (Some (js "10")))
                           (mkWorld (Some (js "10")) [])))
     = Some (js "12").
Proof.
  cbv zeta.
  pose proof (refused_writes_leave_the_file_behind
                (read_only_disk [tw "11" "@vangogh a"; tw "12" "@vangogh b"])
                91 (sample_bot (Some (js "10"))) (mkWorld (Some (js "10")) [])
                (fun t _ => eq_refl)) as H.
  destruct (iteration _ 91 (sample_bot (Some (js "10"))) _) as [bot' w'].
  destruct H as (Hf & _ & Hc).
  cbn [fst snd]. split; [exact Hf|].
  rewrite Hc. vm_compute. reflexivity.
Defined.

(** X9: the iteration posts replies to fetched mentions only, and it writes
    to the cursor file only ids of fetched mentions whose reply was
    posted.  Every reply is the first choice of the completion for its
    mention. *)
Theorem replies_and_writes_come_from_the_batch
    (sv : Services) (checkInterval : N) (bot : Bot) (w : World) :
  let tr := trace (snd (iteration sv checkInterval bot w)) in
  (forall content i,
      In (content, i) (replies tr) ->
      In (content, i) (replies (trace w))
      \/ exists t, In t (fetched sv bot) /\ id t = i
                   /\ reply_of sv (profiles_of sv) t = Some content)
  /\ (forall i,
        In i (written tr) ->
        In i (written (trace w))
        \/ exists t, In t (fetched sv bot) /\ id t = i
                     /\ replied sv (profiles_of sv) t = true).
Proof.
  cbv zeta. split.
  - intros content i. unfold replies. rewrite read_iteration.
    fold (replies (iteration_events sv checkInterval bot)).
    rewrite replies_iteration_events, in_app_iff.
    intros [H|H]; [left; exact H | right].
    apply in_flat_map in H. destruct H as (t & Ht & Hin).
    exists t. destruct (reply_of sv (profiles_of sv) t) as [c|]; [|contradiction].
    destruct Hin as [[= <- <-]|[]]. repeat split. exact Ht.
  - intros i. unfold written. rewrite read_iteration.
    fold (written (iteration_events sv checkInterval bot)).
    rewrite written_iteration_events, in_app_iff.
    intros [H|H]; [left; exact H | right].
    apply in_map_iff in H. destruct H as (t & <- & Ht).
    apply filter_In in Ht. destruct Ht as [Ht Hok].
    apply andb_prop in Hok. exists t. tauto.
Qed.

Lemma sorted_app_right (l1 : list Tweet) (X : Tweet) (rest : list Tweet) :
  StronglySorted id_lt (l1 ++ X :: rest) -> Forall (id_lt X) rest.
Proof.
  induction l1 as [|a l1 IH]; cbn [app]; intros H.
  - apply StronglySorted_inv in H. tauto.
  - apply StronglySorted_inv in H. apply IH. tauto.
Qed.

(** X10: a mention whose reply failed is passed over for good once a later
    mention of the same ascending batch is replied: the cursor moves
    beyond the failed mention, which then is no longer above the cursor
    the next fetch sends as [since_id]. *)
Theorem failed_mention_is_passed_over
    (sv : Services) (checkInterval : N) (bot : Bot) (w : World)
    (l1 : list Tweet) (X : Tweet) (l2 : list Tweet) (Y : Tweet)
    (l3 : list Tweet) :
  fetched sv bot = l1 ++ X :: l2 ++ Y :: l3 ->
  ascending (fetched sv bot) = true ->
  replied sv (profiles_of sv) X = false ->
  replied sv (profiles_of sv) Y = true ->
  let bot' := fst (iteration sv checkInterval bot w) in
  (exists c, lastMentionId bot' = Some c /\ id_num (id X) < id_num c)
  /\ aboveb (lastMentionId bot') (id X) = false.
Proof.
  intros Hbatch Hasc HX HY. cbv zeta.
  rewrite iteration_run. cbn [fst lastMentionId].
  rewrite (ascending_max_is_last _ _ _ Hasc).
  destruct (max_id_ge (map id (filter (replied sv (profiles_of sv))
                                      (fetched sv bot))) (id Y))
    as (m & Hm & Hle).
  { apply in_map, filter_In. split; [|exact HY].
    rewrite Hbatch. apply in_or_app. right. right.
    apply in_or_app. right. left. reflexivity. }
  rewrite Hm.
  assert (Hlt : id_num (id X) < id_num (id Y)).
  { pose proof (ascending_sorted _ Hasc) as Hs. rewrite Hbatch in Hs.
    apply sorted_app_right in Hs. rewrite Forall_forall in Hs.
    apply Hs. apply in_or_app. right. left. reflexivity. }
  split.
  - exists m. split; [reflexivity | lia].
  - cbn [aboveb]. apply N.ltb_ge. lia.
Qed.

(** An instance: of three mentions the reply to the second one is refused;
    the cursor ends on the third. *)
Lemma failed_mention_is_passed_over_witness :
  let sv := calm_but "12" [tw "11" "@vangogh a"; tw "12" "@vangogh b";
                           tw "15" "@vangogh c"] in
  aboveb (lastMentionId (fst (iteration sv 91 (sample_bot None) w0))) (js "12")
  = false.
Proof.
  cbv zeta.
  destruct (failed_mention_is_passed_over
              (calm_but "12" [tw "11" "@vangogh a"; tw "12" "@vangogh b";
                              tw "15" "@vangogh c"])
              91 (sample_bot None) w0
              [tw "11" "@vangogh a"] (tw "12" "@vangogh b") []
              (tw "15" "@vangogh c") []
              eq_refl eq_refl eq_refl eq_refl) as [_ H].
  exact H.
Defined.

(** An instance: the one reply of an iteration over one mention. *)
Lemma replies_and_writes_come_from_the_batch_witness :
  exists t,
    In t [tw "11" "@vangogh a"] /\ id t = js "11"
    /\ reply_of (calm [tw "11" "@vangogh a"] []) [js "alice"] t
       = Some (js "Ears are overrated.").
Proof.
  destruct (replies_and_writes_come_from_the_batch
              (calm [tw "11" "@vangogh a"] []) 91 (sample_bot None) w0)
    as [H _].
  destruct (H (js "Ears are overrated.") (js "11")) as [Hold|Hnew].
  - left. reflexivity.
  - destruct Hold.
  - exact Hnew.
Defined.

(** ** Runs of the loop *)

Lemma runBot_app (svs1 svs2 : list Services) (checkInterval : N) :
  forall (bot : Bot) (w : World),
    runBot (svs1 ++ svs2) checkInterval bot w
    = runBot svs2 checkInterval
        (fst (runBot svs1 checkInterval bot w))
        (snd (runBot svs1 checkInterval bot w)).
Proof.
  induction svs1 as [|sv later IH]; intros bot w; [reflexivity|].
  cbn [app runBot]. unfold bind.
  destruct (iteration sv checkInterval bot w) as [bot1 w1]. apply IH.
Qed.

(** X11: the loop does not stop, whatever the services answer: a run of [n]
    iterations carries out all [n] of them, each ending with one pause of
    [checkInterval * 1000] milliseconds and each with its one fetch of
    mentions. *)
Theorem every_iteration_reaches_its_pause
    (svs : list Services) (checkInterval : N) (bot : Bot) (w : World) :
  let tr := trace (snd (runBot svs checkInterval bot w)) in
  delays tr
  = delays (trace w) ++ repeat (checkInterval * 1000) (List.length svs)
  /\ List.length (since_ids tr)
     = (List.length (since_ids (trace w)) + List.length svs)%nat.
Proof.
  cbv zeta. rewrite runBot_trace.
  unfold delays, since_ids. rewrite !flat_map_app, length_app.
  fold (since_ids (runBot_events svs checkInterval bot)).
  rewrite since_ids_run.
  split; f_equal.
  - clear w. revert bot.
    induction svs as [|sv later IH]; intros bot; [reflexivity|].
    cbn [runBot_events List.length repeat]. rewrite flat_map_app.
    fold (delays (iteration_events sv checkInterval bot)).
    rewrite delays_iteration_events, IH. reflexivity.
  - clear w. revert bot.
    induction svs as [|sv later IH]; intros bot; [reflexivity|].
    cbn [cursors List.length]. rewrite IH. reflexivity.
Qed.

(** X12: over a run the bot keeps its identity, and a cursor it holds is
    never dropped: after the run the cursor is the one the run started
    with, or the id of a mention that one of the iterations fetched, for
    the bot as it stood at that iteration, and replied to. *)
Theorem run_keeps_identity_and_cursor
    (svs : list Services) (checkInterval : N) (bot : Bot) (w : World) :
  let bot' := fst (runBot svs checkInterval bot w) in
  userId bot' = userId bot
  /\ username bot' = username bot
  /\ (lastMentionId bot' = lastMentionId bot
      \/ exists pre sv post t,
           svs = pre ++ sv :: post
           /\ In t (fetched sv (fst (runBot pre checkInterval bot w)))
           /\ replied sv (profiles_of sv) t = true
           /\ lastMentionId bot' = Some (id t)).
Proof.
  cbv zeta. rewrite runBot_bot.
  assert (H : userId (bot_after svs bot) = userId bot
              /\ username (bot_after svs bot) = username bot
              /\ (lastMentionId (bot_after svs bot) = lastMentionId bot
                  \/ exists pre sv post t,
                       svs = pre ++ sv :: post
                       /\ In t (fetched sv (bot_after pre bot))
                       /\ replied sv (profiles_of sv) t = true
                       /\ lastMentionId (bot_after svs bot) = Some (id t))).
  { revert bot. induction svs as [|sv later IH]; intros bot.
    - cbn. repeat split. left. reflexivity.
    - cbn [bot_after fold_left].
      destruct (IH (next_bot sv bot)) as (Hu & Hn & Hc).
      fold (bot_after later (next_bot sv bot)) in *.
      split; [rewrite Hu; reflexivity|].
      split; [rewrite Hn; reflexivity|].
      destruct Hc as [Hc|(pre & sv' & post & t & Hsplit & Ht & Hok & Hc)].
      + rewrite Hc. cbn [next_bot lastMentionId]. unfold last_ok.
        destruct (last_id _) as [i|] eqn:Hi; [right | left; reflexivity].
        apply last_id_In, in_map_iff in Hi. destruct Hi as (t & <- & Ht).
        apply filter_In in Ht. destruct Ht as [Ht Hok].
        exists [], sv, later, t. repeat split; try assumption; reflexivity.
      + right. exists (sv :: pre), sv', post, t.
        split; [rewrite Hsplit; reflexivity|].
        split; [exact Ht|]. split; [exact Hok | exact Hc]. }
  destruct H as (Hu & Hn & [Hc|(pre & sv & post & t & Hsplit & Ht & Hok & Hc)]).
  - repeat split; try assumption. left. exact Hc.
  - repeat split; try assumption. right.
    exists pre, sv, post, t. rewrite runBot_bot. repeat split; assumption.
Qed.

Lemma iteration_file_follows (sv : Services) (checkInterval : N) (bot : Bot)
    (w : World) :
  (forall t, persisted sv t = true) ->
  file w = lastMentionId bot ->
  file (snd (iteration sv checkInterval bot w))
  = lastMentionId (fst (iteration sv checkInterval bot w)).
Proof.
  intros Hall Hsame. rewrite iteration_run. cbn [fst snd file lastMentionId].
  rewrite Hsame. unfold last_ok.
  rewrite (filter_ext (fun t => replied sv (profiles_of sv) t && persisted sv t)
             (replied sv (profiles_of sv))); [reflexivity|].
  intros t. rewrite Hall. apply andb_true_r.
Qed.

(** X13: as long as the cursor file accepts every write, it stays in step
    with the cursor in memory: when the two agree before a run they agree
    after it, so that a restart resumes where the loop was. *)
Theorem file_follows_the_cursor
    (svs : list Services) (checkInterval : N) (bot : Bot) (w : World) :
  Forall (fun sv => forall t, persisted sv t = true) svs ->
  file w = lastMentionId bot ->
  file (snd (runBot svs checkInterval bot w))
  = lastMentionId (fst (runBot svs checkInterval bot w)).
Proof.
  intros Hall. revert bot w.
  induction Hall as [|sv later Hsv Hlater IH]; intros bot w Hsame.
  - exact Hsame.
  - cbn [runBot]. unfold bind.
    pose proof (iteration_file_follows sv checkInterval bot w Hsv Hsame) as H1.
    destruct (iteration sv checkInterval bot w) as [bot1 w1].
    apply IH. exact H1.
Qed.

(** An instance: two iterations against a growing timeline. *)
Lemma file_follows_the_cursor_witness :
  let older := [tw "11" "@vangogh a"; tw "12" "@vangogh b"] in
  let svs := [timeline older; timeline (older ++ [tw "15" "@vangogh c"])] in
  file (snd (runBot svs 91 (sample_bot None) w0)) = Some (js "15").
Proof.
  cbv zeta.
  rewrite (file_follows_the_cursor
             [timeline [tw "11" "@vangogh a"; tw "12" "@vangogh b"];
              timeline ([tw "11" "@vangogh a"; tw "12" "@vangogh b"]
                        ++ [tw "15" "@vangogh c"])]
             91 (sample_bot None) w0).
  - vm_compute. reflexivity.
  - apply Forall_cons; [intros t; reflexivity|].
    apply Forall_cons; [intros t; reflexivity|]. apply Forall_nil.
  - reflexivity.
Defined.

(** ** Start-up *)

Lemma space_is_no_surrogate (c : N) :
  is_space c = true -> is_high c = false /\ is_low c = false.
Proof.
  intros H. unfold is_space in H.
  rewrite !orb_true_iff, !andb_true_iff, !N.leb_le, !N.eqb_eq in H.
  unfold is_high, is_low.
  split; apply andb_false_iff; rewrite !N.leb_gt; lia.
Qed.

Lemma utf8_text_blank (s : jsstring) :
  forallb is_space s = true -> utf8_text s = s.
Proof.
  induction s as [|c r IH]; intros H; [reflexivity|].
  cbn [forallb] in H. apply andb_prop in H. destruct H as [Hc Hr].
  destruct (space_is_no_surrogate c Hc) as [Hh Hl].
  cbn [utf8_text]. rewrite Hh, Hl, (IH Hr). reflexivity.
Qed.

Lemma trim_blank (s : jsstring) : forallb is_space s = true -> trim s = [].
Proof.
  intros H. unfold trim, trimEnd.
  assert (Hs : trimStart s = []).
  { induction s as [|c r IH]; [reflexivity|].
    cbn [forallb] in H. apply andb_prop in H. destruct H as [Hc Hr].
    cbn [trimStart]. rewrite Hc. apply IH, Hr. }
  rewrite Hs. reflexivity.
Qed.

(** X14: [main] gives up exactly when the clients cannot be built or the
    account cannot be identified; it then logs the error and exits with
    code 1 as its last act.  Whether it gives up or not, it leaves the
    cursor file as it found it. *)
Theorem startup_exits_on_initialization_errors (sv : Services) (w : World) :
  (fst (main_startup sv w) = None
   <-> E.isLeft (newClients sv) || E.isLeft (me sv) = true)
  /\ file (snd (main_startup sv w)) = file w
  /\ (fst (main_startup sv w) = None ->
      exists earlier msg error,
        trace (snd (main_startup sv w))
        = earlier ++ [LogAppError msg (InitializationError error); Exit 1]).
Proof.
  unfold main_startup, createClients, initializeBot, bind, emit, ret, get_file.
  destruct (newClients sv) as [e|[]]; cbn.
  - split; [split; reflexivity|]. split; [reflexivity|].
    intros _. exists (trace w), (js "Failed to create clients:"), e.
    rewrite <- app_assoc. reflexivity.
  - destruct (me sv) as [e|[me_id me_name]]; cbn.
    + split; [split; reflexivity|]. split; [reflexivity|].
      intros _.
      exists ((trace w ++ [CallReadFile LAST_MENTION_FILE]) ++ [CallMe]),
        (js "Failed to initialize bot:"), e.
      rewrite <- !app_assoc. reflexivity.
    + split; [split; discriminate|]. split; [reflexivity|]. discriminate.
Qed.

(** An instance: the account lookup refused. *)
Lemma startup_exits_on_initialization_errors_witness :
  let sv :=
    mkServices (E.right tt) (fail "Request failed with code 401")
      (fun _ => E.right []) (fun _ _ => E.right None)
      (fun _ => E.right []) (fun _ _ => E.right tt)
      (fun _ _ => E.right tt) (fun _ => E.right []) in
  fst (main_startup sv (mkWorld (Some (js "10")) [])) = None.
Proof.
  cbv zeta.
  destruct (startup_exits_on_initialization_errors
              (mkServices (E.right tt) (fail "Request failed with code 401")
                 (fun _ => E.right []) (fun _ _ => E.right None)
                 (fun _ => E.right []) (fun _ _ => E.right tt)
                 (fun _ _ => E.right tt) (fun _ => E.right []))
              (mkWorld (Some (js "10")) [])) as [[_ H] _].
  apply H. reflexivity.
Defined.

Lemma main_startup_run
    (sv : Services) (w : World) (me_id me_name : jsstring) :
  newClients sv = E.right tt ->
  me sv = E.right (me_id, me_name) ->
  main_startup sv w
  = (Some (mkBot me_id me_name
             (option_map (fun content => trim (utf8_text content)) (file w))),
     mkWorld (file w)
       (trace w ++ [CallReadFile LAST_MENTION_FILE; CallMe;
                    LogInfo (js "Bot initialized for user: " ++ me_name)])).
Proof.
  intros Hc Hme.
  unfold main_startup, createClients, initializeBot, bind, emit, ret, get_file,
    O.fromNullable.
  rewrite Hc. cbn [file trace]. rewrite Hme. cbn [file trace username].
  rewrite <- !app_assoc. cbn [app].
  destruct (file w); reflexivity.
Qed.

Lemma since_ids_startup (w : World) (me_name : jsstring) :
  since_ids
    (trace w ++ [CallReadFile LAST_MENTION_FILE; CallMe;
                 LogInfo (js "Bot initialized for user: " ++ me_name)])
  = since_ids (trace w).
Proof.
  unfold since_ids. rewrite flat_map_app. cbn [flat_map app]. apply app_nil_r.
Qed.

Lemma first_fetch (sv1 : Services) (bot : Bot) (w1 : World) :
  since_ids (trace (snd (iteration sv1 91 bot w1)))
  = since_ids (trace w1) ++ [lastMentionId bot].
Proof.
  unfold since_ids at 1. rewrite read_iteration.
  fold (since_ids (trace w1)).
  fold (since_ids (iteration_events sv1 91 bot)).
  rewrite since_ids_iteration_events. reflexivity.
Qed.



(** X16: a cursor file that holds nothing but whitespace is not taken for a
    missing cursor: the bot starts with the empty string as its cursor,
    and the first fetch sends the empty string as [since_id] where a
    missing file sends none. *)
Theorem blank_file_is_not_an_empty_cursor
    (sv sv1 : Services) (w : World) (content me_id me_name : jsstring) :
  newClients sv = E.right tt ->
  me sv = E.right (me_id, me_name) ->
  file w = Some content ->
  forallb is_space content = true ->
  let (started, w1) := main_startup sv w in
  started = Some (mkBot me_id me_name (Some []))
  /\ since_ids (trace (snd (iteration sv1 91 (mkBot me_id me_name (Some [])) w1)))
     = since_ids (trace w) ++ [Some []].
Proof.
  intros Hc Hme Hfile Hblank.
  rewrite (main_startup_run sv w me_id me_name Hc Hme).
  rewrite Hfile. cbn [option_map].
  rewrite (utf8_text_blank content Hblank), (trim_blank content Hblank).
  split; [reflexivity|].
  rewrite first_fetch. cbn [trace lastMentionId].
  rewrite since_ids_startup. reflexivity.
Qed.

(** An instance: a cursor file that holds one line feed. *)
Lemma blank_file_is_not_an_empty_cursor_witness :
  fst (main_startup (calm [] []) (mkWorld (Some [10]) []))
  = Some (mkBot (js "1001") (js "vangogh") (Some [])).
Proof.
  pose proof (blank_file_is_not_an_empty_cursor (calm [] []) (calm [] [])
                (mkWorld (Some [10]) []) [10] (js "1001") (js "vangogh")
                eq_refl eq_refl eq_refl eq_refl) as H.
  destruct (main_startup (calm [] []) (mkWorld (Some [10]) [])) as [started w1].
  destruct H as [H _]. exact H.
Defined.

(** ** The authorization helper *)

(** X17: starting an authorization replaces the session only when the
    platform issues a request token.  A refused request answers 500 and
    keeps the session there was; an issued token becomes the session,
    whatever session there was and whether or not the browser could be
    opened, and the answer is 200; when the browser cannot be opened the
    URL is printed instead. *)
Theorem start_sets_the_session (sv : Auth.Services) (st : Auth.State) :
  let (res, st') := Auth.start sv st in
  match Auth.generateAuthLink sv (Auth.CALLBACK_URL sv) with
  | E.left _ =>
      Auth.status res = 500 /\ Auth.requestTokens st' = Auth.requestTokens st
  | E.right link =>
      Auth.status res = 200
      /\ Auth.requestTokens st'
         = Some (Auth.mkOAuthTokens (Auth.link_oauth_token link)
                                    (Auth.link_oauth_token_secret link))
      /\ In (Auth.CallOpen (Auth.link_url link)) (Auth.trace st')
      /\ (E.isLeft (Auth.open sv (Auth.link_url link)) = true ->
          In (Auth.ConsoleLog (js "Please open this URL manually: "
                               ++ Auth.link_url link))
             (Auth.trace st'))
  end.
Proof.
  unfold Auth.start.
  destruct (Auth.generateAuthLink sv (Auth.CALLBACK_URL sv)) as [e|link].
  - split; reflexivity.
  - unfold Auth.log. cbn [Auth.requestTokens Auth.trace].
    destruct (Auth.open sv (Auth.link_url link)) as [e|[]];
      cbn [Auth.requestTokens Auth.trace Auth.status E.isLeft].
    + split; [reflexivity|]. split; [reflexivity|].
      rewrite !in_app_iff. split.
      * left. right. left. reflexivity.
      * intros _. right. left. reflexivity.
    + split; [reflexivity|]. split; [reflexivity|].
      rewrite !in_app_iff. split; [|discriminate].
      right. left. reflexivity.
Qed.

(** An instance: a machine without a browser. *)
Lemma start_sets_the_session_witness :
  let sv :=
    Auth.mkServices None
      (fun _ => E.right (Auth.mkAuthLink (js "https://api.twitter.com/oauth/authorize?oauth_token=rt-1")
                           (js "rt-1") (js "rt-secret")))
      (fun _ => fail "spawn xdg-open ENOENT")
      (fun _ _ => fail "Request failed with code 401") in
  In (Auth.ConsoleLog
        (js "Please open this URL manually: https://api.twitter.com/oauth/authorize?oauth_token=rt-1"))
     (Auth.trace (snd (Auth.start sv idle))).
Proof.
  cbv zeta.
  pose proof (start_sets_the_session
                (Auth.mkServices None
                   (fun _ => E.right (Auth.mkAuthLink (js "https://api.twitter.com/oauth/authorize?oauth_token=rt-1")
                                        (js "rt-1") (js "rt-secret")))
                   (fun _ => fail "spawn xdg-open ENOENT")
                   (fun _ _ => fail "Request failed with code 401"))
                idle) as H.
  destruct (Auth.start _ idle) as [res st'].
  cbn [Auth.generateAuthLink] in H.
  destruct H as (_ & _ & _ & H).
  cbn [snd]. apply H. reflexivity.
Defined.

Lemma logins_app (a b : list Auth.Event) :
  logins (a ++ b) = logins a ++ logins b.
Proof. apply flat_map_app. Qed.

(** X18: the callback never changes the session, and it goes to the
    exchange exactly when the token, the verifier and a session are all
    present.  When one of them is missing (a parameter absent or empty, or
    no authorization started) it ends in [InvalidCallback] without an
    exchange; otherwise it attempts one exchange, with the tokens of the
    session and the verifier, and answers 200 exactly when the platform
    accepts it. *)
Theorem callback_exchanges_when_all_is_present
    (sv : Auth.Services) (query : Auth.Query) (st : Auth.State) :
  let (res, st') := Auth.callback sv query st in
  Auth.requestTokens st' = Auth.requestTokens st
  /\ (callback_guard query st = true ->
      invalid_callback res st' (Auth.trace st)
      /\ logins (Auth.trace st') = logins (Auth.trace st))
  /\ (callback_guard query st = false ->
      exists S verifier,
        Auth.requestTokens st = Some S
        /\ Auth.q_oauth_verifier query = Some verifier
        /\ logins (Auth.trace st') = logins (Auth.trace st) ++ [(S, verifier)]
        /\ (Auth.status res = 200
            <-> E.isRight (Auth.login sv S verifier) = true)).
Proof.
  unfold Auth.callback, callback_guard.
  destruct (Auth.falsy (Auth.q_oauth_token query)
            || Auth.falsy (Auth.q_oauth_verifier query)
            || Auth.is_null (Auth.requestTokens st)) eqn:Hg.
  - unfold Auth.callback_failure, Auth.log, invalid_callback.
    cbn [Auth.requestTokens Auth.trace Auth.status].
    split; [reflexivity|]. split; [|discriminate].
    intros _. split; [split; reflexivity|].
    rewrite logins_app. apply app_nil_r.
  - apply orb_false_iff in Hg. destruct Hg as [Hg Hs].
    apply orb_false_iff in Hg. destruct Hg as [_ Hv].
    destruct (Auth.requestTokens st) as [S|] eqn:HS; [|discriminate Hs].
    destruct (Auth.q_oauth_verifier query) as [verifier|]; [|discriminate Hv].
    destruct (Auth.login sv S verifier) as [e|access] eqn:Hlogin;
      unfold Auth.callback_failure, Auth.log;
      cbn [Auth.requestTokens Auth.trace Auth.status];
      (split; [exact HS|]); (split; [discriminate|]);
      intros _; exists S, verifier;
      (split; [reflexivity|]); (split; [reflexivity|]);
      rewrite ?logins_app, Hlogin; cbn.
    + split; [apply app_nil_r|]. split; intros H; discriminate H.
    + split; [apply app_nil_r|]. split; reflexivity.
Qed.

(** Instances: a callback before any start, and a callback with an empty
    token after one. *)
Lemma callback_exchanges_when_all_is_present_witness :
  invalid_callback
    (fst (Auth.callback obliging
            (Auth.mkQuery (Some (js "rt-1")) (Some (js "v-1"))) idle))
    (snd (Auth.callback obliging
            (Auth.mkQuery (Some (js "rt-1")) (Some (js "v-1"))) idle))
    []
  /\ logins (Auth.trace
               (snd (Auth.callback obliging
                       (Auth.mkQuery (Some []) (Some (js "v-1")))
                       (snd (Auth.start obliging idle)))))
     = [].
Proof.
  split.
  - pose proof (callback_exchanges_when_all_is_present obliging
                  (Auth.mkQuery (Some (js "rt-1")) (Some (js "v-1"))) idle) as H.
    destruct (Auth.callback obliging _ idle) as [res st'].
    destruct H as (_ & H & _). cbn [fst snd].
    exact (proj1 (H eq_refl)).
  - pose proof (callback_exchanges_when_all_is_present obliging
                  (Auth.mkQuery (Some []) (Some (js "v-1")))
                  (snd (Auth.start obliging idle))) as H.
    destruct (Auth.callback obliging _ (snd (Auth.start obliging idle)))
      as [res st'].
    destruct H as (_ & H & _). cbn [snd].
    rewrite (proj2 (H eq_refl)). reflexivity.
Defined.
